(** * userfeed-canny-importer: the resumable import loop, its duplicate
      guards, the AI gate's answer parsing, the seeded voter shuffle, the
      pool of fake users and the listing of the boards.

    The development embeds the TypeScript importer shallowly:
    - JavaScript strings are [string]s whose characters are the code units
      below 256;
    - JavaScript numbers are the kernel's binary64 [float]s where the source
      computes with fractions ([pseudoRandom]), integers ([Z], [nat]) where
      it counts;
    - a rejected promise or a thrown exception is the [Throw] case of
      [result];
    - what the remote services answer is a script indexed by the row, so
      that a run is a function of its inputs. *)

From Stdlib Require Import ZArith String Ascii List Floats Lia Bool Permutation.
From Stdlib Require Import DecimalString DecimalNat.
From stdpp Require Import base gmap sets strings list.

Local Open Scope Z_scope.

(** ** JavaScript strings *)

Module JS.

(** [s.charCodeAt(k)] for the character [c] at that place. *)
Definition charCode (c : ascii) : Z := Z.of_N (N_of_ascii c).

Definition fromCharCode (z : Z) : ascii := ascii_of_N (Z.to_N z).

(** [s.split("")]. *)
Definition chars (s : string) : list ascii := list_ascii_of_string s.

(** [String.prototype.toLowerCase] on the code units below 256:
    A-Z, and the accented capitals À-Þ but for the multiplication sign. *)
Definition lowerChar (c : ascii) : ascii :=
  let n := charCode c in
  if ((65 <=? n) && (n <=? 90)) || ((192 <=? n) && (n <=? 222) && negb (n =? 215))
  then fromCharCode (n + 32) else c.

Fixpoint toLowerCase (s : string) : string :=
  match s with
  | EmptyString => EmptyString
  | String c r => String (lowerChar c) (toLowerCase r)
  end.

(** White space and line terminators that [trim] strips: TAB, LF, VT, FF,
    CR, SP and NBSP. *)
Definition isSpace (c : ascii) : bool :=
  let n := charCode c in
  ((9 <=? n) && (n <=? 13)) || (n =? 32) || (n =? 160).

Fixpoint trimStart (s : string) : string :=
  match s with
  | String c r => if isSpace c then trimStart r else s
  | EmptyString => EmptyString
  end.

(** Strips from the right: a space is dropped when nothing but spaces
    follows it. *)
Fixpoint trimEnd (s : string) : string :=
  match s with
  | EmptyString => EmptyString
  | String c r =>
      match trimEnd r with
      | EmptyString => if isSpace c then EmptyString else String c EmptyString
      | r' => String c r'
      end
  end.

Definition trim (s : string) : string := trimEnd (trimStart s).

(** The characters the regular expression dot refuses without the [s]
    flag. *)
Definition isLineTerminator (c : ascii) : bool :=
  let n := charCode c in (n =? 10) || (n =? 13).

(** [p] is the start of [s]: what follows it. *)
Fixpoint stripPrefix (p s : string) : option string :=
  match p, s with
  | EmptyString, _ => Some s
  | String a p', String b s' =>
      if Ascii.eqb a b then stripPrefix p' s' else None
  | String _ _, EmptyString => None
  end.

(** The longest run matched by [.+] up to the first line terminator. *)
Fixpoint dotRun (s : string) : string :=
  match s with
  | EmptyString => EmptyString
  | String c r => if isLineTerminator c then EmptyString else String c (dotRun r)
  end.

(** First group of [s.match(/LABEL(.+)/)]: the leftmost place where the
    label is followed by one character that is no line terminator. *)
Fixpoint matchLine (label s : string) : option string :=
  match stripPrefix label s with
  | Some (String c r as rest) =>
      if isLineTerminator c then
        match s with String _ s' => matchLine label s' | EmptyString => None end
      else Some (dotRun rest)
  | _ => match s with String _ s' => matchLine label s' | EmptyString => None end
  end.

(** First group of [s.match(/LABEL(.+)/s)]: with the [s] flag the dot
    takes every character, so the group runs to the end of the string. *)
Fixpoint matchRest (label s : string) : option string :=
  match stripPrefix label s with
  | Some (String c r as rest) => Some rest
  | _ => match s with String _ s' => matchRest label s' | EmptyString => None end
  end.

(** The bytes [crypto] hashes for a string: its UTF-8 encoding. *)
Definition utf8 (s : string) : list Z :=
  flat_map (fun c => let n := charCode c in
                     if n <? 128 then [n] else [192 + n / 64; 128 + n mod 64])
           (chars s).

End JS.

(** ** MD5, as [crypto.createHash("md5")] computes it (RFC 1321) *)

Module MD5.

Definition mask : Z := 0xffffffff.
Definition add32 (x y : Z) : Z := Z.land (x + y) mask.
Definition not32 (x : Z) : Z := Z.lxor x mask.
Definition rotl32 (x n : Z) : Z :=
  Z.lor (Z.land (Z.shiftl x n) mask) (Z.shiftr x (32 - n)).

Definition K : list Z :=
  [ 0xd76aa478; 0xe8c7b756; 0x242070db; 0xc1bdceee;
    0xf57c0faf; 0x4787c62a; 0xa8304613; 0xfd469501;
    0x698098d8; 0x8b44f7af; 0xffff5bb1; 0x895cd7be;
    0x6b901122; 0xfd987193; 0xa679438e; 0x49b40821;
    0xf61e2562; 0xc040b340; 0x265e5a51; 0xe9b6c7aa;
    0xd62f105d; 0x02441453; 0xd8a1e681; 0xe7d3fbc8;
    0x21e1cde6; 0xc33707d6; 0xf4d50d87; 0x455a14ed;
    0xa9e3e905; 0xfcefa3f8; 0x676f02d9; 0x8d2a4c8a;
    0xfffa3942; 0x8771f681; 0x6d9d6122; 0xfde5380c;
    0xa4beea44; 0x4bdecfa9; 0xf6bb4b60; 0xbebfbc70;
    0x289b7ec6; 0xeaa127fa; 0xd4ef3085; 0x04881d05;
    0xd9d4d039; 0xe6db99e5; 0x1fa27cf8; 0xc4ac5665;
    0xf4292244; 0x432aff97; 0xab9423a7; 0xfc93a039;
    0x655b59c3; 0x8f0ccc92; 0xffeff47d; 0x85845dd1;
    0x6fa87e4f; 0xfe2ce6e0; 0xa3014314; 0x4e0811a1;
    0xf7537e82; 0xbd3af235; 0x2ad7d2bb; 0xeb86d391 ].

Definition shifts : list Z :=
  [ 7; 12; 17; 22; 7; 12; 17; 22; 7; 12; 17; 22; 7; 12; 17; 22;
    5; 9; 14; 20; 5; 9; 14; 20; 5; 9; 14; 20; 5; 9; 14; 20;
    4; 11; 16; 23; 4; 11; 16; 23; 4; 11; 16; 23; 4; 11; 16; 23;
    6; 10; 15; 21; 6; 10; 15; 21; 6; 10; 15; 21; 6; 10; 15; 21 ].

Record regs := Regs { rA : Z; rB : Z; rC : Z; rD : Z }.

Definition init : regs :=
  Regs 0x67452301 0xefcdab89 0x98badcfe 0x10325476.

(** The round function and the message word of step [i]. *)
Definition mix (i : nat) (b c d : Z) : Z :=
  if (i <? 16)%nat then Z.lor (Z.land b c) (Z.land (not32 b) d)
  else if (i <? 32)%nat then Z.lor (Z.land d b) (Z.land (not32 d) c)
  else if (i <? 48)%nat then Z.lxor b (Z.lxor c d)
  else Z.lxor c (Z.lor b (not32 d)).

Definition wordIndex (i : nat) : nat :=
  if (i <? 16)%nat then i
  else if (i <? 32)%nat then (5 * i + 1) mod 16
  else if (i <? 48)%nat then (3 * i + 5) mod 16
  else (7 * i) mod 16.

Definition step (M : list Z) (r : regs) (i : nat) : regs :=
  let f := add32 (add32 (add32 (mix i (rB r) (rC r) (rD r)) (rA r))
                        (nth i K 0)) (nth (wordIndex i) M 0) in
  Regs (rD r) (add32 (rB r) (rotl32 f (nth i shifts 0))) (rB r) (rC r).

Definition block (r : regs) (M : list Z) : regs :=
  let r' := fold_left (step M) (seq 0 64) r in
  Regs (add32 (rA r) (rA r')) (add32 (rB r) (rB r'))
       (add32 (rC r) (rC r')) (add32 (rD r) (rD r')).

(** Little-endian 32-bit words of a byte string. *)
Fixpoint words (bs : list Z) : list Z :=
  match bs with
  | b0 :: b1 :: b2 :: b3 :: rest =>
      (b0 + 256 * b1 + 65536 * b2 + 16777216 * b3) :: words rest
  | _ => []
  end.

Definition le32 (x : Z) : list Z :=
  [ Z.land x 255; Z.land (Z.shiftr x 8) 255;
    Z.land (Z.shiftr x 16) 255; Z.land (Z.shiftr x 24) 255 ].

Definition pad (bs : list Z) : list Z :=
  let n := Z.of_nat (length bs) in
  let bits := (8 * n) mod 2 ^ 64 in
  bs ++ [128] ++ repeat 0 (Z.to_nat ((55 - n) mod 64))
     ++ le32 (Z.land bits mask) ++ le32 (Z.shiftr bits 32).

Fixpoint blocks (fuel : nat) (ws : list Z) (r : regs) : regs :=
  match fuel, ws with
  | S fuel', _ :: _ => blocks fuel' (skipn 16 ws) (block r (firstn 16 ws))
  | _, _ => r
  end.

Definition digest (bs : list Z) : list Z :=
  let ws := words (pad bs) in
  let r := blocks (length ws) ws init in
  le32 (rA r) ++ le32 (rB r) ++ le32 (rC r) ++ le32 (rD r).

Definition hexDigit (z : Z) : ascii :=
  JS.fromCharCode (if z <? 10 then 48 + z else 87 + z).

(** [.digest("hex")]. *)
Fixpoint hex (bs : list Z) : string :=
  match bs with
  | [] => EmptyString
  | b :: rest => String (hexDigit (b / 16)) (String (hexDigit (b mod 16)) (hex rest))
  end.

Definition md5Hex (s : string) : string := hex (digest (JS.utf8 s)).

End MD5.

(** ** Data model *)

(** A row of [feature_requests_export.csv]; every column is a string. *)
Record FeatureRequest := {
  title : string;
  description : string;
  status : string;
  Total_Likes : string;
  Requested_By : string;
  created_at : string
}.

Record FakeUser := { id : option string; email : string; name : string }.

Record ImportState := { cursor : nat; importedIds : list string }.

Inductive category := feature | bug.

#[global] Instance category_eq_dec : EqDecision category.
Proof. solve_decision. Defined.

#[global] Instance FeatureRequest_eq_dec : EqDecision FeatureRequest.
Proof. solve_decision. Defined.

#[global] Instance FakeUser_eq_dec : EqDecision FakeUser.
Proof. solve_decision. Defined.

(** The entries of the process-wide [config] object that the loop reads. *)
Record Config := {
  FEATURE_BOARD_ID : string;
  BUG_BOARD_ID : string;
  INVALID_POSTS_AI_FILTERING : string;
  POSTS_AI_ENHANCEMENT : string;
  MAX_POSTS : string
}.

(** An awaited call either resolves to a value or throws. *)
Inductive result (A : Type) := Ok (a : A) | Throw.
Arguments Ok {A} a.
Arguments Throw {A}.

(** [generateItemId]: the MD5 of title and created_at, one after the other. *)
Definition generateItemId (request : FeatureRequest) : string :=
  MD5.md5Hex (String.append (title request) (created_at request)).

(** [importedIds.includes(itemId)]. *)
Definition includes (x : string) (l : list string) : bool :=
  existsb (String.eqb x) l.

(** *** [parseInt]

    Leading white space, a sign, an optional [0x], then the digits up to
    the first character that is none; [None] is NaN.  The result is a
    number: the integer read is rounded to the nearest binary64 value,
    which changes it from 2^53 + 1 on.  A digit string beyond the largest
    finite number (more than 308 digits) reads as Infinity in the host;
    the model has no infinite count and keeps the rounded integer. *)

(** The number nearest to an integer: the integer itself up to 2^53 in
    magnitude, beyond that its 53 leading bits, rounded to nearest with
    ties to the even one. *)
Definition nearestNumber (z : Z) : Z :=
  let a := Z.abs z in
  if a <? 2 ^ 53 then z
  else
    let e := Z.log2 a - 52 in
    let q := Z.shiftr a e in
    let r := a - Z.shiftl q e in
    let half := Z.shiftl 1 (e - 1) in
    let q' := if (half <? r) || ((r =? half) && Z.odd q) then q + 1 else q in
    Z.sgn z * Z.shiftl q' e.

Definition digitValue (radix : Z) (c : ascii) : option Z :=
  let n := JS.charCode c in
  let v := if (48 <=? n) && (n <=? 57) then n - 48
           else if (97 <=? n) && (n <=? 122) then n - 87
           else if (65 <=? n) && (n <=? 90) then n - 55
           else 99 in
  if v <? radix then Some v else None.

Fixpoint digits (radix : Z) (acc : option Z) (s : string) : option Z :=
  match s with
  | EmptyString => acc
  | String c r =>
      match digitValue radix c with
      | Some v => digits radix (Some (radix * default 0 acc + v)) r
      | None => acc
      end
  end.

Definition parseInt (s : string) : option Z :=
  let s := JS.trimStart s in
  let '(neg, s) := match s with
                   | String "-" r => (true, r)
                   | String "+" r => (false, r)
                   | _ => (false, s)
                   end in
  let v := match s with
           | String "0" (String "x" r) | String "0" (String "X" r) => digits 16 None r
           | _ => digits 10 None s
           end in
  (fun z => nearestNumber (if neg then - z else z)) <$> v.


(** ** AI gate: reading the service's answers

    The content of the first choice is [None] when the service sent no
    choice or a null content. *)

(** The tail of [categorizeRequest]. *)
Definition categoryOfAnswer (content : option string) : category :=
  match JS.toLowerCase <$> (JS.trim <$> content) with
  | Some c => if String.eqb c "bug" then bug else feature
  | None => feature
  end.

(** The tail of [isValidRequest]. *)
Definition validOfAnswer (content : option string) : bool :=
  match JS.toLowerCase <$> (JS.trim <$> content) with
  | Some c => String.eqb c "yes"
  | None => false
  end.

(** [x || d] on strings: the empty string is falsy as undefined is. *)
Definition orElse (x : option string) (d : string) : string :=
  match x with
  | Some EmptyString | None => d
  | Some s => s
  end.

Definition nl : string := String (JS.fromCharCode 10) EmptyString.

(** What [enhanceRequest] appends to every description it returns. *)
Definition originalSuffix (request : FeatureRequest) : string :=
  String.append nl (String.append nl
    (String.append "Original title: " (String.append (title request)
      (String.append nl
        (String.append "Original description: " (description request)))))).

(** The tail of [enhanceRequest]: the record built from the answer. *)
Definition enhancedRecord (content : option string) (request : FeatureRequest)
  : FeatureRequest :=
  let enhancedTitle :=
    orElse (content ≫= JS.matchLine "Enhanced Title: ") (title request) in
  let enhancedDescription :=
    orElse (content ≫= JS.matchRest "Enhanced Description: ") (description request) in
  {| title := enhancedTitle;
     description := String.append enhancedDescription (originalSuffix request);
     status := status request;
     Total_Likes := Total_Likes request;
     Requested_By := Requested_By request;
     created_at := created_at request |}.


(** ** JavaScript numbers *)

Module Number.

Definition two52 : float := 4503599627370496%float.

(** [Math.floor]: below 2^52 in magnitude, adding and taking away 2^52
    rounds to the nearest integer, which is then corrected downwards;
    from 2^52 on every number is an integer; NaN, the infinities and the
    zeros are returned as they are. *)
Definition floor (x : float) : float :=
  if (x =? 0)%float then x
  else if (abs x <? two52)%float then
    let r := if (0 <? x)%float then ((x + two52) - two52)%float
             else ((x - two52) + two52)%float in
    if (x <? r)%float then (r - 1)%float else r
  else x.

(** The number of an integer the source counts with (a length, a sum of
    character codes): exact below 2^53. *)
Definition ofZ (z : Z) : float := of_uint63 (Uint63.of_Z z).

(** The integer a number stands for, when it is one. *)
Definition toZ (x : float) : option Z :=
  match Prim2SF x with
  | S754_zero _ => Some 0
  | S754_finite s m e =>
      let sign v := if s then - v else v in
      if 0 <=? e then Some (sign (Z.pos m * 2 ^ e))
      else if Z.pos m mod 2 ^ (- e) =? 0 then Some (sign (Z.pos m / 2 ^ (- e)))
      else None
  | _ => None
  end.

(** The array index a number names as a property key: the integers from
    0 to 2^32 - 2. *)
Definition arrayIndex (x : float) : option nat :=
  match toZ x with
  | Some z => if (0 <=? z) && (z <? 4294967295) then Some (Z.to_nat z) else None
  | None => None
  end.

(** Two numbers that are no array index name the same property when they
    print alike: NaN with NaN, otherwise equal numbers. *)
Definition sameName (x y : float) : bool :=
  (is_nan x && is_nan y) || (x =? y)%float.

Definition pi_hi : float := 0x1.921fb54442d18p+1%float.
Definition pi_lo : float := 0x1.1a62633145c07p-53%float.

(** One sine a host may ship: reduction by the nearest multiple of pi,
    then the Taylor polynomial of degree 21. *)
Definition sinTaylor (x : float) : float :=
  let q := (x / pi_hi)%float in
  let k := floor (q + 0.5)%float in
  let y := ((x - k * pi_hi) - k * pi_lo)%float in
  let y2 := (y * y)%float in
  let c (n : float) := (1 / n)%float in
  let p := (y * (1 - y2 * c 6 * (1 - y2 * c 20 * (1 - y2 * c 42 * (1 - y2 * c 72 *
           (1 - y2 * c 110 * (1 - y2 * c 156 * (1 - y2 * c 210 * (1 - y2 * c 272 *
           (1 - y2 * c 342 * (1 - y2 * c 420)))))))))))%float in
  let odd := negb (k - 2 * floor (k / 2) =? 0)%float in
  if odd then (- p)%float else p.

End Number.

(** ** JavaScript arrays

    An array is its indexed elements, where [None] is [undefined] (a hole
    reads the same), and the properties set under keys that are no index. *)

Section JsArray.
Context {A : Type}.

Record jsArray := { elems : list (option A); props : list (float * option A) }.

(** [[...l]]. *)
Definition ofList (l : list A) : jsArray := {| elems := Some <$> l; props := [] |}.

(** [array[n]] for a natural [n]. *)
Definition getIndex (a : jsArray) (n : nat) : option A := mjoin (elems a !! n).

(** [array[n] = v]: past the end the array grows, with holes between. *)
Definition setIndex (a : jsArray) (n : nat) (v : option A) : jsArray :=
  {| elems := if (n <? length (elems a))%nat then <[n := v]> (elems a)
              else elems a ++ replicate (n - length (elems a)) None ++ [v];
     props := props a |}.

Fixpoint getNamed (ps : list (float * option A)) (x : float) : option A :=
  match ps with
  | [] => None
  | (y, v) :: rest => if Number.sameName x y then v else getNamed rest x
  end.

Fixpoint setNamed (ps : list (float * option A)) (x : float) (v : option A)
  : list (float * option A) :=
  match ps with
  | [] => [(x, v)]
  | (y, w) :: rest => if Number.sameName x y then (y, v) :: rest
                      else (y, w) :: setNamed rest x v
  end.

(** [array[x]] and [array[x] = v] for a number [x]. *)
Definition get (a : jsArray) (x : float) : option A :=
  match Number.arrayIndex x with
  | Some n => getIndex a n
  | None => getNamed (props a) x
  end.

Definition set (a : jsArray) (x : float) (v : option A) : jsArray :=
  match Number.arrayIndex x with
  | Some n => setIndex a n v
  | None => {| elems := elems a; props := setNamed (props a) x v |}
  end.

(** [array.slice(0, count)], [None] being NaN: a negative end counts from
    the end of the array. *)
Definition slice0 (a : jsArray) (count : option Z) : list (option A) :=
  let len := Z.of_nat (length (elems a)) in
  let final := match count with
               | None => 0
               | Some c => if c <? 0 then Z.max (len + c) 0 else Z.min c len
               end in
  take (Z.to_nat final) (elems a).

End JsArray.
Arguments jsArray A : clear implicits.

(** ** Vote simulator: the seeded shuffle *)

Section Shuffle.
(** [Math.sin], which the language leaves to the host. *)
Variable Math_sin : float -> float.
Context {A : Type}.

Definition pseudoRandom (seed : float) : float :=
  let x := (Math_sin seed * 10000)%float in
  (x - Number.floor x)%float.

(** [seed.split("").reduce((acc, char) => acc + char.charCodeAt(0), 0)].
    The sum is exact as a number for every string a host can hold
    (below 2^53), so it is kept as an integer. *)
Definition seedNumber (seed : string) : Z :=
  fold_left (fun acc char => acc + JS.charCode char) (JS.chars seed) 0.

(** The [while (m)] loop: [m] is read for the index, then decremented,
    then the places [m] and [i] are exchanged through [t]. *)
Fixpoint shuffleLoop (seedNumber : Z) (m : nat) (array : jsArray A) : jsArray A :=
  match m with
  | O => array
  | S m' =>
      let i := Number.floor (pseudoRandom (Number.ofZ (seedNumber + Z.of_nat m))
                             * Number.ofZ (Z.of_nat m))%float in
      let t := getIndex array m' in
      let array := setIndex array m' (get array i) in
      let array := set array i t in
      shuffleLoop seedNumber m' array
  end.

Definition shuffleArray (array : jsArray A) (seed : string) : jsArray A :=
  shuffleLoop (seedNumber seed) (length (elems array)) array.

(** *** The algorithm as the specification words it *)

(** Sum of the character codes of the post identifier. *)
Definition spec_seed (postId : string) : Z :=
  foldr Z.add 0 (JS.charCode <$> JS.chars postId).

Definition spec_frac (x : float) : float := (x - Number.floor x)%float.

(** [i = floor(frac(sin(seed + m) * 10000) * m)]. *)
Definition spec_index (seed : Z) (m : nat) : float :=
  Number.floor (spec_frac (Math_sin (Number.ofZ (seed + Z.of_nat m)) * 10000)
                * Number.ofZ (Z.of_nat m))%float.

(** Exchange of the elements at the places [p] and [q]. *)
Definition spec_swap (a : jsArray A) (p : nat) (q : float) : jsArray A :=
  let atP := getIndex a p in
  let atQ := get a q in
  set (setIndex a p atQ) q atP.

(** [m] counting down from the pool size to 1. *)
Definition countdown (n : nat) : list nat := reverse (seq 1 n).

Definition spec_shuffle (pool : list A) (postId : string) : jsArray A :=
  foldl (fun a m => spec_swap a (m - 1) (spec_index (spec_seed postId) m))
        (ofList pool) (countdown (length pool)).

(** Every exchange of the shuffle stays among the first [m] places. *)
Definition indexInRange (seed : Z) (m : nat) : bool :=
  match Number.arrayIndex (spec_index seed m) with
  | Some i => (i <? m)%nat
  | None => false
  end.

Definition shuffleInRange (poolSize : nat) (postId : string) : bool :=
  forallb (indexInRange (spec_seed postId)) (seq 1 poolSize).

End Shuffle.

(** ** Calls to the outside and the effect of awaiting them *)

Inductive call :=
| AskValid (title description : string)
| AskEnhance (title description : string)
| AskCategory (title description : string)
| CreateUser (email : string)
| CreatePost (boardID : string) (board : category) (authorID : option string)
             (title details createdAt : string)
| CreateVote (postID : string) (voterID : option string).

(** A call as the trace keeps it, with whether it resolved. *)
Record event := Event { ev_call : call; ev_resolved : bool }.

Definition isAiCall (c : call) : bool :=
  match c with
  | AskValid _ _ | AskEnhance _ _ | AskCategory _ _ => true
  | _ => false
  end.

Definition isRemoteCall (c : call) : bool := negb (isAiCall c).

Definition isOk {A} (r : result A) : bool :=
  match r with Ok _ => true | Throw => false end.

(** Computations that await calls: the value or the exception, and the
    calls made on the way. *)
Definition M (A : Type) : Type := (result A * list event)%type.

Definition ret {A} (a : A) : M A := (Ok a, []).

Definition throw {A} : M A := (Throw, []).

Definition bind {A B} (m : M A) (k : A -> M B) : M B :=
  match m with
  | (Ok a, t) => let '(r, t') := k a in (r, t ++ t')
  | (Throw, t) => (Throw, t)
  end.

Definition await {A} (c : call) (answer : result A) : M A :=
  (answer, [Event c (isOk answer)]).

Declare Scope eff_scope.
Delimit Scope eff_scope with eff.
Notation "'do' x <- c1 ; c2" := (bind c1 (fun x => c2))
  (at level 10, x name, c1 at level 100, c2 at level 200) : eff_scope.
Notation "'exec' c1 ; c2" := (bind c1 (fun _ => c2))
  (at level 10, c1 at level 100, c2 at level 200) : eff_scope.

(** What the services answer to the calls of one row in one run. *)
Record answers := {
  a_valid : result (option string);
  a_enhance : result (option string);
  a_category : result (option string);
  a_user : result (option string);
  a_post : result (option string);
  a_votes : nat -> result unit
}.

(** What does not change while the loop runs. *)
Record Env := {
  config : Config;
  fakeUsers : list FakeUser;
  script : nat -> answers
}.

(** ** The loop of [main] *)

Record LoopState := {
  importState : ImportState;
  importedPosts : nat;
  existingFeaturePosts : gset string;
  existingBugPosts : gset string;
  (** [import_state.json], [None] before the first write *)
  disk : option ImportState
}.

(** How the loop left a row, after the message it logs. *)
Inductive outcome :=
| SkippedImported   (* "Skipping already imported request" *)
| SkippedInvalid    (* "Skipping invalid request" *)
| SkippedExisting   (* "Skipping already existing post" *)
| Imported          (* "Imported" *)
| Errored.          (* "Error processing request" *)

#[global] Instance outcome_eq_dec : EqDecision outcome.
Proof. solve_decision. Defined.

Record entry := Entry {
  e_index : nat;
  e_itemId : string;
  e_outcome : outcome;
  e_events : list event
}.

(** How the [for] loop ended: by [break] at a row, or at the end of the
    rows. *)
Inductive termination := CapReached (i : nat) | Exhausted.

Record Run := { final : LoopState; entries : list entry; stop : termination }.

(** What the [try] block reaches before it records anything. *)
Inductive verdict :=
| Invalid
| Existing
| Published (enhancedRequest : FeatureRequest) (cat : category).

Section Importer.
Variable Math_sin : float -> float.

Local Open Scope eff_scope.

Definition isValidRequest (a : answers) (title description : string) : M bool :=
  do content <- await (AskValid title description) (a_valid a);
  ret (validOfAnswer content).

Definition enhanceRequest (a : answers) (request : FeatureRequest) : M FeatureRequest :=
  do content <- await (AskEnhance (title request) (description request)) (a_enhance a);
  ret (enhancedRecord content request).

Definition categorizeRequest (a : answers) (title description : string) : M category :=
  do content <- await (AskCategory title description) (a_category a);
  ret (categoryOfAnswer content).

(** The [id] of the user the service answers with. *)
Definition createOrUpdateUser (a : answers) (email : string) : M (option string) :=
  await (CreateUser email) (a_user a).

(** [category === "feature" ? config.FEATURE_BOARD_ID : config.BUG_BOARD_ID]. *)
Definition boardID (cfg : Config) (cat : category) : string :=
  match cat with
  | feature => FEATURE_BOARD_ID cfg
  | bug => BUG_BOARD_ID cfg
  end.

(** The call carries the board id of the category; the trace keeps the
    category beside it, as the log of the source does. *)
Definition createPost (cfg : Config) (a : answers) (request : FeatureRequest)
           (authorID : option string) (cat : category) : M (option string) :=
  await (CreatePost (boardID cfg cat) cat authorID (title request)
                    (description request) (created_at request)) (a_post a).

(** The [for (const voter of voters)] loop; reading [voter.id] of
    [undefined] throws before the call is made. *)
Fixpoint castVotes (votes : nat -> result unit) (postID : string) (k : nat)
         (voters : list (option FakeUser)) : M unit :=
  match voters with
  | [] => ret tt
  | None :: _ => throw
  | Some voter :: rest =>
      exec await (CreateVote postID (id voter)) (votes k);
      castVotes votes postID (S k) rest
  end.

(** [addVotes]; an [undefined] post id makes [seed.split] throw. *)
Definition addVotes (a : answers) (postID : option string) (count : option Z)
           (fakeUsers : list FakeUser) : M unit :=
  match postID with
  | None => throw
  | Some postID =>
      let shuffledUsers := shuffleArray Math_sin (ofList fakeUsers) postID in
      let voters := slice0 shuffledUsers count in
      castVotes (a_votes a) postID 0 voters
  end.

(** [existingPosts] is the set of the decided category itself, not a
    copy: adding to it changes that set for the rows to come. *)
Definition existingPosts (cat : category) (s : LoopState) : gset string :=
  match cat with
  | feature => existingFeaturePosts s
  | bug => existingBugPosts s
  end.

(** The [try] block up to the last awaited call. *)
Definition tryBlock (env : Env) (a : answers) (request : FeatureRequest)
           (s : LoopState) : M verdict :=
  do isValid <- (if String.eqb (INVALID_POSTS_AI_FILTERING (config env)) "true"
                 then isValidRequest a (title request) (description request)
                 else ret true);
  if negb isValid then ret Invalid
  else
    do enhancedRequest <- (if String.eqb (POSTS_AI_ENHANCEMENT (config env)) "true"
                           then enhanceRequest a request
                           else ret request);
    do cat <- categorizeRequest a (title enhancedRequest) (description enhancedRequest);
    if bool_decide (title enhancedRequest ∈ existingPosts cat s) then ret Existing
    else
      do author <- createOrUpdateUser a (Requested_By request);
      do postID <- createPost (config env) a enhancedRequest author cat;
      exec addVotes a postID (parseInt (Total_Likes request)) (fakeUsers env);
      ret (Published enhancedRequest cat).

(** The end of the [try] block: the title joins the set of its category,
    the counter goes up, the item id and the cursor are recorded and the
    state file is rewritten. *)
Definition commit (i : nat) (itemId : string) (enhancedRequest : FeatureRequest)
           (cat : category) (s : LoopState) : LoopState :=
  let importState' :=
    {| cursor := i + 1; importedIds := importedIds (importState s) ++ [itemId] |} in
  {| importState := importState';
     importedPosts := S (importedPosts s);
     existingFeaturePosts :=
       match cat with
       | feature => {[ title enhancedRequest ]} ∪ existingFeaturePosts s
       | bug => existingFeaturePosts s
       end;
     existingBugPosts :=
       match cat with
       | feature => existingBugPosts s
       | bug => {[ title enhancedRequest ]} ∪ existingBugPosts s
       end;
     disk := Some importState' |}.

(** One turn of the loop after the cap check. *)
Definition body (env : Env) (i : nat) (request : FeatureRequest) (s : LoopState)
  : LoopState * entry :=
  let itemId := generateItemId request in
  if includes itemId (importedIds (importState s))
  then (s, Entry i itemId SkippedImported [])
  else
    match tryBlock env (script env i) request s with
    | (Ok Invalid, t) => (s, Entry i itemId SkippedInvalid t)
    | (Ok Existing, t) => (s, Entry i itemId SkippedExisting t)
    | (Ok (Published enhancedRequest cat), t) =>
        (commit i itemId enhancedRequest cat s, Entry i itemId Imported t)
    | (Throw, t) => (s, Entry i itemId Errored t)
    end.

(** [importedPosts >= maxPosts], never true of NaN. *)
Definition capReached (importedPosts : nat) (maxPosts : option Z) : bool :=
  match maxPosts with
  | Some k => k <=? Z.of_nat importedPosts
  | None => false
  end.

(** The [for] loop from row [i] on, [rows] being the rows from there. *)
Fixpoint loop (env : Env) (maxPosts : option Z) (i : nat)
         (rows : list FeatureRequest) (s : LoopState) : Run :=
  match rows with
  | [] => {| final := s; entries := []; stop := Exhausted |}
  | request :: rest =>
      if capReached (importedPosts s) maxPosts
      then {| final := s; entries := []; stop := CapReached i |}
      else
        let '(s', e) := body env i request s in
        let r := loop env maxPosts (S i) rest s' in
        {| final := final r; entries := e :: entries r; stop := stop r |}
  end.

Definition loadOrCreateImportState (file : option ImportState) : ImportState :=
  default {| cursor := 0; importedIds := [] |} file.

(** The state the loop starts in: the import state read back, the counter
    at the number of recorded ids, the titles fetched from the two boards. *)
Definition initialState (featureTitles bugTitles : gset string)
           (file : option ImportState) : LoopState :=
  let importState := loadOrCreateImportState file in
  {| importState := importState;
     importedPosts := length (importedIds importState);
     existingFeaturePosts := featureTitles;
     existingBugPosts := bugTitles;
     disk := file |}.

(** [main] once the configuration, the rows, the voters and the titles of
    the two boards are there. *)
Definition main (env : Env) (requests : list FeatureRequest)
           (featureTitles bugTitles : gset string) (file : option ImportState) : Run :=
  let maxPosts := parseInt (MAX_POSTS (config env)) in
  let importState := loadOrCreateImportState file in
  loop env maxPosts (cursor importState) (drop (cursor importState) requests)
       (initialState featureTitles bugTitles file).

End Importer.

(** ** What a run leaves behind *)

Definition imports (es : list entry) : nat :=
  length (filter (fun e => e_outcome e = Imported) es).

Definition allEvents (es : list entry) : list event := concat (e_events <$> es).

(** The titles a board gained: those of the post creations that resolved. *)
Definition postedOn (board : category) (ev : event) : option string :=
  match ev with
  | Event (CreatePost _ b _ t _ _) true => if decide (b = board) then Some t else None
  | _ => None
  end.

Definition boardAfter (board : category) (titles : gset string) (es : list entry)
  : gset string :=
  titles ∪ list_to_set (omap (postedOn board) (allEvents es)).

(** No row of the run ended in the [catch] block. *)
Definition noError (es : list entry) : Prop :=
  Forall (fun e => e_outcome e <> Errored) es.

(** Two scripts in which the AI service answers alike. *)
Definition sameAI (a b : answers) : Prop :=
  a_valid a = a_valid b /\ a_enhance a = a_enhance b /\ a_category a = a_category b.

(** ** Before the loop: the voters and the titles on the boards *)

(** [`${n}`] for a count [n]. *)
Definition decimal (n : nat) : string := NilZero.string_of_uint (Nat.to_uint n).

(** [`fake${i + 1}@${config.EMAIL_FAKE_DOMAIN}`]. *)
Definition fakeEmail (domain : string) (i : nat) : string :=
  String.append "fake" (String.append (decimal (i + 1)) (String.append "@" domain)).

Definition adjectives : list string := ["Happy"; "Clever"; "Brave"; "Wise"; "Kind"]%string.
Definition nouns : list string := ["Dolphin"; "Tiger"; "Eagle"; "Fox"; "Owl"]%string.

(** [names[Math.floor(r * names.length)]] inside a template literal, [r]
    being what [Math.random()] gave: a place that is not there prints as
    "undefined". *)
Definition pick (names : list string) (r : float) : string :=
  match Number.arrayIndex
          (Number.floor (r * Number.ofZ (Z.of_nat (length names)))%float) with
  | Some i => default "undefined"%string (names !! i)
  | None => "undefined"%string
  end.

Definition generateRandomAlias (r1 r2 : float) : string :=
  String.append (pick adjectives r1) (String.append " " (pick nouns r2)).

(** What one call of [createOrUpdateUser] meets: the two random draws of
    the alias and the answer of the service. *)
Record userAnswer := { u_random : float * float; u_id : result (option string) }.

(** [createOrUpdateUser] with the whole record it returns. *)
Definition createOrUpdateUser_record (ua : userAnswer) (email : string) : M FakeUser :=
  let name := generateRandomAlias (fst (u_random ua)) (snd (u_random ua)) in
  bind (await (CreateUser email) (u_id ua))
       (fun id => ret {| id := id; email := email; name := name |}).

(** The numbers [main] counts voters with: what [parseInt] and [Math.max]
    give. *)
Inductive count := CNaN | CNegInfinity | CInt (z : Z).

Definition countOfParse (p : option Z) : count :=
  match p with Some z => CInt z | None => CNaN end.

(** [Math.max(x, y)]. *)
Definition Math_max2 (x y : count) : count :=
  match x, y with
  | CNaN, _ | _, CNaN => CNaN
  | CNegInfinity, v | v, CNegInfinity => v
  | CInt a, CInt b => CInt (Z.max a b)
  end.

(** [Math.max(...xs)]: minus infinity without arguments. *)
Definition Math_max (xs : list count) : count := foldr Math_max2 CNegInfinity xs.

(** [Math.max(...requests.map((r) => parseInt(r["Total Likes"])))]. *)
Definition maxVotes (requests : list FeatureRequest) : count :=
  Math_max ((fun r => countOfParse (parseInt (Total_Likes r))) <$> requests).

(** [loadOrCreateFakeUsers]: no file, or one that does not parse, is the
    empty list. *)
Definition loadOrCreateFakeUsers (file : option (list FakeUser)) : list FakeUser :=
  default [] file.

(** The turns of [for (let i = fakeUsers.length; i < neededUsers; i++)]:
    none when [neededUsers] is NaN. *)
Definition usersToCreate (count : count) (len : nat) : nat :=
  match Math_max2 count (CInt (Z.of_nat len)) with
  | CInt neededUsers => Z.to_nat neededUsers - len
  | _ => 0
  end.

(** The loop of [ensureFakeUsers], [turns] turns from index [i]. *)
Fixpoint growUsers (domain : string) (answersOf : nat -> userAnswer)
         (turns i : nat) (fakeUsers : list FakeUser) : M (list FakeUser) :=
  match turns with
  | O => ret fakeUsers
  | S turns' =>
      bind (createOrUpdateUser_record (answersOf i) (fakeEmail domain i))
           (fun user => growUsers domain answersOf turns' (S i) (fakeUsers ++ [user]))
  end.

Record PoolResult := {
  pool : M (list FakeUser);
  (** [fake_users.json] afterwards *)
  poolFile : option (list FakeUser)
}.

(** [ensureFakeUsers]: the file is written once, after the loop. *)
Definition ensureFakeUsers (domain : string) (answersOf : nat -> userAnswer)
           (count : count) (file : option (list FakeUser)) : PoolResult :=
  let fakeUsers := loadOrCreateFakeUsers file in
  let m := growUsers domain answersOf (usersToCreate count (length fakeUsers))
                     (length fakeUsers) fakeUsers in
  {| pool := m;
     poolFile := match m with (Ok users, _) => Some users | (Throw, _) => file end |}.

(** One answer of [posts/list]. *)
Record postsPage := { posts : list string; hasMore : bool }.

Definition limit : Z := 100.

(** The [while (hasMore)] loop of [fetchExistingPosts]: the service
    answers a request by its [skip]; the result is the set and the
    requests made, or [None] while the loop is still turning when the
    fuel is spent. *)
Fixpoint fetchPages (server : Z -> result postsPage) (fuel : nat) (skip : Z)
         (existingPosts : gset string) : option (result (gset string) * list Z) :=
  match fuel with
  | O => None
  | S fuel' =>
      match server skip with
      | Throw => Some (Throw, [skip])
      | Ok data =>
          let existingPosts := existingPosts ∪ list_to_set (posts data) in
          if hasMore data
          then match fetchPages server fuel' (skip + limit) existingPosts with
               | Some (r, requests) => Some (r, skip :: requests)
               | None => None
               end
          else Some (Ok existingPosts, [skip])
      end
  end.

Definition fetchExistingPosts (server : Z -> result postsPage) (fuel : nat)
  : option (result (gset string) * list Z) :=
  fetchPages server fuel 0 ∅.

(** What [main] meets before the loop. *)
Record Prelude := {
  csv : result (list FeatureRequest);
  domain : string;
  usersFile : option (list FakeUser);
  userAnswers : nat -> userAnswer;
  featureServer : Z -> result postsPage;
  bugServer : Z -> result postsPage;
  stateFile : option ImportState
}.

(** How [main] ends: in its outer [catch], with the loop run, or never
    (the paging still turning). *)
Inductive ending := Fatal | Paging | Finished (r : Run).

Record Outcome := {
  ended : ending;
  usersFileAfter : option (list FakeUser);
  stateFileAfter : option ImportState;
  usersCreated : list event
}.

Section Program.
Variable Math_sin : float -> float.

(** [main] with what comes before the loop: the rows are read, the pool is
    brought to the largest vote count, the titles of the two boards are
    fetched, then the loop runs; an exception before the loop ends the run
    in the outer [catch]. *)
Definition program (cfg : Config) (rowAnswers : nat -> answers) (p : Prelude)
           (fuel : nat) : Outcome :=
  match csv p with
  | Throw => {| ended := Fatal; usersFileAfter := usersFile p;
                stateFileAfter := stateFile p; usersCreated := [] |}
  | Ok requests =>
      let users := ensureFakeUsers (domain p) (userAnswers p) (maxVotes requests)
                                   (usersFile p) in
      let stopped e := {| ended := e; usersFileAfter := poolFile users;
                          stateFileAfter := stateFile p;
                          usersCreated := snd (pool users) |} in
      match fst (pool users) with
      | Throw => stopped Fatal
      | Ok fakeUsers =>
          match fetchExistingPosts (featureServer p) fuel with
          | None => stopped Paging
          | Some (Throw, _) => stopped Fatal
          | Some (Ok existingFeaturePosts, _) =>
              match fetchExistingPosts (bugServer p) fuel with
              | None => stopped Paging
              | Some (Throw, _) => stopped Fatal
              | Some (Ok existingBugPosts, _) =>
                  let r := main Math_sin
                             {| config := cfg; fakeUsers := fakeUsers;
                                script := rowAnswers |}
                             requests existingFeaturePosts existingBugPosts
                             (stateFile p) in
                  {| ended := Finished r; usersFileAfter := poolFile users;
                     stateFileAfter := disk (final r);
                     usersCreated := snd (pool users) |}
              end
          end
      end
  end.

End Program.

(** ** Notions the specification words its properties with *)

(** "An exact case-insensitive match to bug": the three letters, each in
    either case. *)
Definition spec_matchesBug (s : string) : Prop :=
  exists b u g : ascii,
    s = String b (String u (String g EmptyString)) /\
    (b = "b"%char \/ b = "B"%char) /\
    (u = "u"%char \/ u = "U"%char) /\
    (g = "g"%char \/ g = "G"%char).

(** "The response cannot be parsed into the expected shape": the answer
    has not both labels, each with text after it. *)
Definition spec_parseMiss (content : option string) : Prop :=
  content ≫= JS.matchLine "Enhanced Title: " = None \/
  content ≫= JS.matchRest "Enhanced Description: " = None.

(** [suffix] ends [s]. *)
Definition endsWith (s suffix : string) : Prop :=
  exists start : string, s = String.append start suffix.

(** *** What the AI gate decides for a row, stage by stage *)

(** The validity filter lets the row pass (or is switched off). *)
Definition passesFilter (cfg : Config) (a : answers) : bool :=
  if String.eqb (INVALID_POSTS_AI_FILTERING cfg) "true"
  then match a_valid a with Ok c => validOfAnswer c | Throw => false end
  else true.

(** The record that goes on after the enhancer: the possibly enhanced one. *)
Definition decidedRequest (cfg : Config) (a : answers) (request : FeatureRequest)
  : option FeatureRequest :=
  if String.eqb (POSTS_AI_ENHANCEMENT cfg) "true"
  then match a_enhance a with Ok c => Some (enhancedRecord c request) | Throw => None end
  else Some request.

(** The category the categorizer's answer on that record decides. *)
Definition decidedCategory (a : answers) : option category :=
  match a_category a with Ok c => Some (categoryOfAnswer c) | Throw => None end.

(** The event is a user creation, a post creation or a vote. *)
Definition isRemoteEvent (ev : event) : bool := isRemoteCall (ev_call ev).

(** A vote call for a voter, which resolved. *)
Definition voteEvent (postID : string) (v : FakeUser) : event :=
  Event (CreateVote postID (id v)) true.

(** The same environment under another MAX_POSTS entry. *)
Definition withMaxPosts (v : string) (env : Env) : Env :=
  {| config := {| FEATURE_BOARD_ID := FEATURE_BOARD_ID (config env);
                  BUG_BOARD_ID := BUG_BOARD_ID (config env);
                  INVALID_POSTS_AI_FILTERING := INVALID_POSTS_AI_FILTERING (config env);
                  POSTS_AI_ENHANCEMENT := POSTS_AI_ENHANCEMENT (config env);
                  MAX_POSTS := v |};
     fakeUsers := fakeUsers env;
     script := script env |}.

(** The rows a run would import were there no cap: the eligible rows. *)
Definition eligibleRows (Math_sin : float -> float) (env : Env)
           (requests : list FeatureRequest) (featureTitles bugTitles : gset string)
           (file : option ImportState) : nat :=
  imports (entries (main Math_sin (withMaxPosts "Infinity" env) requests
                         featureTitles bugTitles file)).

(** The state a later run would read back from the state file. *)
Definition persisted (s : LoopState) : ImportState :=
  loadOrCreateImportState (disk s).

Definition isSkip (o : outcome) : Prop :=
  o = SkippedImported \/ o = SkippedInvalid \/ o = SkippedExisting.

(** ** The ways a row can end

    The four ways the [try] block can end, with what each one carries: a
    skip made AI calls only and depends on the AI answers and on the
    configuration alone; a publication put its own title, and no other,
    on the board of its category. *)
Inductive tryShape (Math_sin : float -> float) (env : Env) (a : answers)
          (request : FeatureRequest) (s : LoopState) : M verdict -> Prop :=
| TryInvalid t :
    Forall (fun ev => isAiCall (ev_call ev) = true) t ->
    (forall env2 a2, config env2 = config env -> sameAI a a2 ->
                     tryBlock Math_sin env2 a2 request s = (Ok Invalid, t)) ->
    tryShape Math_sin env a request s (Ok Invalid, t)
| TryExisting t :
    Forall (fun ev => isAiCall (ev_call ev) = true) t ->
    (forall env2 a2, config env2 = config env -> sameAI a a2 ->
                     tryBlock Math_sin env2 a2 request s = (Ok Existing, t)) ->
    tryShape Math_sin env a request s (Ok Existing, t)
| TryPublished enhanced cat t :
    (forall board, omap (postedOn board) t
                   = if decide (cat = board) then [title enhanced] else []) ->
    tryShape Math_sin env a request s (Ok (Published enhanced cat), t)
| TryThrow t : tryShape Math_sin env a request s (Throw, t).

(** The three ways a turn of the loop can end: skipped, imported, failed. *)
Inductive bodyShape (Math_sin : float -> float) (env : Env) (i : nat)
          (request : FeatureRequest) (s : LoopState) : LoopState * entry -> Prop :=
| BodySkip o t :
    isSkip o ->
    Forall (fun ev => isAiCall (ev_call ev) = true) t ->
    (forall env2, config env2 = config env ->
                  sameAI (script env i) (script env2 i) ->
                  body Math_sin env2 i request s
                  = (s, Entry i (generateItemId request) o t)) ->
    bodyShape Math_sin env i request s (s, Entry i (generateItemId request) o t)
| BodyImported enhanced cat t :
    includes (generateItemId request) (importedIds (importState s)) = false ->
    (forall board, omap (postedOn board) t
                   = if decide (cat = board) then [title enhanced] else []) ->
    bodyShape Math_sin env i request s
      (commit i (generateItemId request) enhanced cat s,
       Entry i (generateItemId request) Imported t)
| BodyErrored t :
    includes (generateItemId request) (importedIds (importState s)) = false ->
    bodyShape Math_sin env i request s
      (s, Entry i (generateItemId request) Errored t).

(** The counter agrees with the recorded ids and the state file with the
    state in memory, as at the start of [main] and after every commit. *)
Definition consistent (s : LoopState) : Prop :=
  importedPosts s = length (importedIds (importState s))
  /\ persisted s = importState s.

(** ** Concrete inputs for the examples below *)

Definition sampleRequest : FeatureRequest :=
  {| title := "dark mode pls"; description := "too bright"; status := "open";
     Total_Likes := "3"; Requested_By := "ann@example.org";
     created_at := "2024-01-01" |}.

(** An answer of the enhancer in the shape it was asked for. *)
Definition sampleAnswer : string :=
  String.append "Enhanced Title: Dark theme"
    (String.append nl (String.append "Enhanced Description: Add a dark theme."
      (String.append nl "It helps at night."))).

(** An answer of the enhancer without the two labels. *)
Definition refusal : option string := Some "Sorry, I cannot help with that."%string.

(** An answer of the enhancer with the first label only. *)
Definition titleOnly : option string := Some "Enhanced Title: Dark theme"%string.

Definition plainConfig : Config :=
  {| FEATURE_BOARD_ID := "board-features"; BUG_BOARD_ID := "board-bugs";
     INVALID_POSTS_AI_FILTERING := "false"; POSTS_AI_ENHANCEMENT := "false";
     MAX_POSTS := "Infinity" |}.

Definition aiConfig : Config :=
  {| FEATURE_BOARD_ID := "board-features"; BUG_BOARD_ID := "board-bugs";
     INVALID_POSTS_AI_FILTERING := "true"; POSTS_AI_ENHANCEMENT := "true";
     MAX_POSTS := "Infinity" |}.

(** Every call resolves; the enhancer answers in the asked shape. *)
Definition okAnswers : answers :=
  {| a_valid := Ok (Some "yes"%string);
     a_enhance := Ok (Some sampleAnswer);
     a_category := Ok (Some "feature"%string);
     a_user := Ok (Some "user-1"%string);
     a_post := Ok (Some "p1"%string);
     a_votes := fun _ => Ok tt |}.

Definition voter (n : string) : FakeUser :=
  {| id := Some n; email := String.append n "@fake.example.org"; name := n |}.

Definition threeVoters : list FakeUser := [voter "A"; voter "B"; voter "C"]%string.

(** The second vote call of a row throws. *)
Definition secondVoteFails : answers :=
  {| a_valid := a_valid okAnswers; a_enhance := a_enhance okAnswers;
     a_category := a_category okAnswers; a_user := a_user okAnswers;
     a_post := a_post okAnswers;
     a_votes := fun k => if (k =? 1)%nat then Throw else Ok tt |}.


Definition plainEnv : Env :=
  {| config := plainConfig; fakeUsers := threeVoters; script := fun _ => okAnswers |}.

Definition aiEnv : Env :=
  {| config := aiConfig; fakeUsers := threeVoters; script := fun _ => okAnswers |}.

(** No voters at all: the run does not depend on the host's sine. *)
Definition noVotersEnv : Env :=
  {| config := plainConfig; fakeUsers := []; script := fun _ => okAnswers |}.

Definition row (t c likes : string) : FeatureRequest :=
  {| title := t; description := "some text"; status := "open";
     Total_Likes := likes; Requested_By := "ann@example.org"; created_at := c |}.

Definition stateWith (ids : list string) (c : nat) (featureTitles : gset string)
  : LoopState :=
  {| importState := {| cursor := c; importedIds := ids |};
     importedPosts := length ids;
     existingFeaturePosts := featureTitles;
     existingBugPosts := ∅;
     disk := Some {| cursor := c; importedIds := ids |} |}.

(** Two rows with different titles and dates whose title and date, put
    one after the other, read the same. *)
Definition rowNotes1 : FeatureRequest := row "Release notes 1" "2024-01-01" "0".
Definition rowNotes : FeatureRequest := row "Release notes " "12024-01-01" "0".

(** Ten rows, one vote asked for each. *)
Definition tenRows : list FeatureRequest :=
  (fun n : string => row (String.append "request " n) "2024-03-01" "1")
    <$> ["0"; "1"; "2"; "3"; "4"; "5"; "6"; "7"; "8"; "9"]%string.

(** Post creation throws for the row at index 4, the fifth of the ten. *)
Definition postFails : answers :=
  {| a_valid := a_valid okAnswers; a_enhance := a_enhance okAnswers;
     a_category := a_category okAnswers; a_user := a_user okAnswers;
     a_post := Throw; a_votes := a_votes okAnswers |}.


(** Three rows, and a state file that records the first as imported. *)
Definition threeRows : list FeatureRequest :=
  [row "request 0" "2024-03-01" "1"; row "request 1" "2024-03-01" "1";
   row "request 2" "2024-03-01" "1"].

Definition firstRecorded : option ImportState :=
  Some {| cursor := 1; importedIds := [generateItemId (row "request 0" "2024-03-01" "1")] |}.

(** Post creation throws for the last of the three rows. *)
Definition lastFailsEnv : Env :=
  {| config := plainConfig; fakeUsers := threeVoters;
     script := fun i => if (i =? 2)%nat then postFails else okAnswers |}.


(** The plain environment under a cap of [k] posts. *)
Definition cappedEnv (k : string) : Env := withMaxPosts k plainEnv.

(** A feature board that already holds the title of the third row. *)
Definition boardWithThird : gset string := {[ "request 2"%string ]}.

(** ** Further notions: rows, runs, the pool, the listing, strings *)

(** The ItemIds of the rows a run imported, in the order of the run. *)
Definition importedItemIds (es : list entry) : list string :=
  e_itemId <$> filter (fun e => e_outcome e = Imported) es.

(** The titles a run put on a board, in the order of the run. *)
Definition postedTitles (board : category) (es : list entry) : list string :=
  omap (postedOn board) (allEvents es).

(** The place of a call in a row: validity, enhancement, category, user,
    post, votes. *)
Definition stage (c : call) : nat :=
  match c with
  | AskValid _ _ => 0
  | AskEnhance _ _ => 1
  | AskCategory _ _ => 2
  | CreateUser _ => 3
  | CreatePost _ _ _ _ _ _ => 4
  | CreateVote _ _ => 5
  end.

(** The stages go up from call to call, only votes repeat. *)
Fixpoint inStageOrder (t : list event) : bool :=
  match t with
  | [] => true
  | ev :: rest =>
      match rest with
      | [] => true
      | next :: _ =>
          ((stage (ev_call ev) <? stage (ev_call next))%nat
           || ((stage (ev_call ev) =? 5)%nat && (stage (ev_call next) =? 5)%nat))
          && inStageOrder rest
      end
  end.

(** Every call but the last one resolved. *)
Fixpoint onlyLastMayThrow (t : list event) : bool :=
  match t with
  | [] => true
  | ev :: rest =>
      match rest with
      | [] => true
      | _ :: _ => ev_resolved ev && onlyLastMayThrow rest
      end
  end.

(** The last row a run imported, if any. *)
Definition lastImported (es : list entry) : option entry :=
  last (filter (fun e => e_outcome e = Imported) es).

(** What lets a row through to the board: its ItemId is not recorded, the
    validity filter lets it pass, the enhancer and the categorizer
    answered, and the title to post is not in the set of its category. *)
Definition reachesBoard (env : Env) (i : nat) (request : FeatureRequest)
           (s : LoopState) : Prop :=
  includes (generateItemId request) (importedIds (importState s)) = false
  /\ passesFilter (config env) (script env i) = true
  /\ exists enhanced cat,
       decidedRequest (config env) (script env i) request = Some enhanced
       /\ decidedCategory (script env i) = Some cat
       /\ title enhanced ∉ existingPosts cat s.

(** The creation of the fake user of place [i], which resolved. *)
Definition userCreated (domain : string) (i : nat) : event :=
  Event (CreateUser (fakeEmail domain i)) true.

(** The [skip] values of the first [n] requests of a listing. *)
Definition skips (n : nat) : list Z := (fun k => limit * Z.of_nat k)%Z <$> seq 0 n.

(** A board that lists its titles in a fixed order: a request answers
    with the (at most [limit]) titles from [skip] on and tells whether
    more follow. *)
Definition pagedBoard (titles : list string) (skip : Z) : result postsPage :=
  Ok {| posts := take (Z.to_nat limit) (drop (Z.to_nat skip) titles);
        hasMore := (skip + limit <? Z.of_nat (length titles))%Z |}.

(** The requests it takes to list [n] titles. *)
Definition pagesOf (n : nat) : nat := ((n - 1) / 100 + 1)%nat.

(** What may follow the digits of a number for [parseInt] to stop there:
    nothing, or a character that is no decimal digit (and no x, which
    after a lone 0 would start a hexadecimal number). *)
Definition endsNumber (rest : string) : bool :=
  match rest with
  | EmptyString => true
  | String c _ =>
      match digitValue 10 c with
      | Some _ => false
      | None => negb (Ascii.eqb c "x" || Ascii.eqb c "X")
      end
  end.

(** One of 0-9 and a-f. *)
Definition isLowerHex (c : ascii) : bool :=
  let n := JS.charCode c in
  ((48 <=? n) && (n <=? 57)) || ((97 <=? n) && (n <=? 102)).

(** Every character of the string passes the test. *)
Fixpoint allChars (p : ascii -> bool) (s : string) : bool :=
  match s with
  | EmptyString => true
  | String c r => p c && allChars p r
  end.

(** No line terminator in the string. *)
Definition oneLine (s : string) : bool :=
  allChars (fun c => negb (JS.isLineTerminator c)) s.

(** Nothing follows, or a line terminator does. *)
Definition lineEnds (rest : string) : bool :=
  match rest with
  | EmptyString => true
  | String c _ => JS.isLineTerminator c
  end.

(** The event is a vote. *)
Definition isVoteEvent (ev : event) : bool :=
  match ev_call ev with CreateVote _ _ => true | _ => false end.

(** The event is the creation of a user or of a post. *)
Definition isCreation (ev : event) : bool :=
  isRemoteEvent ev && negb (isVoteEvent ev).

(** The word yes, each letter in either case. *)
Definition matchesYes (s : string) : Prop :=
  exists y e z : ascii,
    s = String y (String e (String z EmptyString)) /\
    (y = "y"%char \/ y = "Y"%char) /\
    (e = "e"%char \/ e = "E"%char) /\
    (z = "s"%char \/ z = "S"%char).

(** The title a resolved post creation sent to the board of id [b]. *)
Definition sentTo (b : string) (ev : event) : option string :=
  match ev with
  | Event (CreatePost id _ _ t _ _) true => if decide (id = b) then Some t else None
  | _ => None
  end.

(** The titles a run put on the board of id [b], in the order of the run. *)
Definition titlesOn (b : string) (es : list entry) : list string :=
  omap (sentTo b) (allEvents es).

(** A post creation is sent to the board the configuration gives for its
    category. *)
Definition sentByCategory (cfg : Config) (ev : event) : Prop :=
  match ev_call ev with
  | CreatePost id cat _ _ _ _ => id = boardID cfg cat
  | _ => True
  end.

(** ** Further concrete inputs *)

Definition voteFailsEnv : Env :=
  {| config := aiConfig; fakeUsers := threeVoters; script := fun _ => secondVoteFails |}.

(** Every creation of a fake user resolves. *)
Definition usersResolve (i : nat) : userAnswer :=
  {| u_random := (0.25%float, 0.5%float);
     u_id := Ok (Some (String.append "user-" (decimal i))) |}.

(** The creation of the third fake user throws. *)
Definition thirdUserFails (i : nat) : userAnswer :=
  if (i =? 2)%nat then {| u_random := (0.25%float, 0.5%float); u_id := Throw |}
  else usersResolve i.

(** Two rows, the second with a like count that is no number. *)
Definition rowsWithBadLikes : list FeatureRequest :=
  [row "request 0" "2024-03-01" "3"; row "request 1" "2024-03-01" "many"].

(** A service that says after every page that more follow. *)
Definition endlessBoard (skip : Z) : result postsPage :=
  Ok {| posts := ["again"%string]; hasMore := true |}.

(** A first run over the three rows: no file yet, one title on the
    feature board. *)
Definition firstRun : Prelude :=
  {| csv := Ok threeRows;
     domain := "fake.example.org";
     usersFile := None;
     userAnswers := usersResolve;
     featureServer := pagedBoard ["request 2"%string];
     bugServer := pagedBoard [];
     stateFile := None |}.

(** One board for both categories, and two rows of one title, the second
    of which the categorizer files as a bug. *)
Definition oneBoardEnv : Env :=
  {| config := {| FEATURE_BOARD_ID := "board"; BUG_BOARD_ID := "board";
                  INVALID_POSTS_AI_FILTERING := "false";
                  POSTS_AI_ENHANCEMENT := "false"; MAX_POSTS := "Infinity" |};
     fakeUsers := threeVoters;
     script := fun i =>
       if (i =? 1)%nat
       then {| a_valid := a_valid okAnswers; a_enhance := a_enhance okAnswers;
               a_category := Ok (Some "bug"%string); a_user := a_user okAnswers;
               a_post := a_post okAnswers; a_votes := a_votes okAnswers |}
       else okAnswers |}.

Definition sameTitleRows : list FeatureRequest :=
  [row "request 0" "2024-03-01" "1"; row "request 0" "2024-04-02" "1"].

(** * Sanity checks of the embedding on concrete inputs *)

Example md5_abc : MD5.md5Hex "abc" = "900150983cd24fb0d6963f7d28e17f72"%string.
Proof. vm_compute. reflexivity. Qed.

Example md5_empty : MD5.md5Hex "" = "d41d8cd98f00b204e9800998ecf8427e"%string.
Proof. vm_compute. reflexivity. Qed.

Example md5_two_blocks :
  MD5.md5Hex "aaaaaaaaaaaaaaaaaaaaaaaaaaaaaaaaaaaaaaaaaaaaaaaaaaaaaaaaaaaaaaaaaaaaaa"
  = "0f5c6c4e740bfcc08c3c26ccb2673d46"%string.
Proof. vm_compute. reflexivity. Qed.

Example md5_latin1 :
  MD5.md5Hex ("caf" ++ String (JS.fromCharCode 233) "")
  = "07117fe4a1ebd544965dc19573183da2"%string.
Proof. vm_compute. reflexivity. Qed.

Example parseInt_12 : parseInt " 12 likes" = Some 12.
Proof. reflexivity. Qed.

Example parseInt_Infinity : parseInt "Infinity" = None.
Proof. reflexivity. Qed.

Example enhanced_sample :
  let r := enhancedRecord (Some sampleAnswer) sampleRequest in
  title r = "Dark theme"%string /\
  description r =
    String.append "Add a dark theme."
      (String.append nl (String.append "It helps at night."
        (String.append nl (String.append nl (String.append "Original title: dark mode pls"
          (String.append nl "Original description: too bright")))))).
Proof. vm_compute. split; reflexivity. Qed.

Example parseInt_neg : parseInt "-3" = Some (-3).
Proof. reflexivity. Qed.

Example parseInt_rounds :
  parseInt "9007199254740993" = Some 9007199254740992
  /\ parseInt "9007199254740995" = Some 9007199254740996
  /\ parseInt "-18014398509481987" = Some (-18014398509481988).
Proof. repeat split; reflexivity. Qed.

Example parseInt_hex : parseInt "0x1f" = Some 31.
Proof. reflexivity. Qed.

Example floor_values :
  Number.toZ <$> (Number.floor <$> [2.5; -2.5; 0.25; -0.25; 7; -7; 9784.5; -3549.125]%float)
  = Some <$> [2; -3; 0; -1; 7; -7; 9784; -3550].
Proof. vm_compute. reflexivity. Qed.

Example sinTaylor_values :
  Number.toZ <$> ((fun x => Number.floor (Number.sinTaylor x * 1000000000000)%float)
                    <$> [164; 163; 162; 1; 0]%float)
  = Some <$> [594932778023; -354910175845; -978450350794; 841470984807; 0].
Proof. vm_compute. reflexivity. Qed.

Example shuffle_p1 :
  elems (shuffleArray Number.sinTaylor (ofList ["A"; "B"; "C"]%string) "p1")
  = [Some "C"; Some "B"; Some "A"]%string
  /\ seedNumber "p1" = 161.
Proof. vm_compute. split; reflexivity. Qed.

(** * The AI gate *)

Section LowerCase.

Local Ltac by_cases c :=
  destruct c as [[] [] [] [] [] [] [] []]; vm_compute; intros H;
  first [ discriminate H | auto ].

Lemma lowerChar_b c : JS.lowerChar c = "b"%char -> c = "b"%char \/ c = "B"%char.
Proof. by_cases c. Qed.

Lemma lowerChar_u c : JS.lowerChar c = "u"%char -> c = "u"%char \/ c = "U"%char.
Proof. by_cases c. Qed.

Lemma lowerChar_g c : JS.lowerChar c = "g"%char -> c = "g"%char \/ c = "G"%char.
Proof. by_cases c. Qed.

Lemma toLowerCase_bug s :
  JS.toLowerCase s = "bug"%string <-> spec_matchesBug s.
Proof.
  split.
  - destruct s as [|b [|u [|g [|x r]]]]; simpl; try discriminate.
    intros H; injection H as Hb Hu Hg.
    exists b, u, g.
    repeat split; auto using lowerChar_b, lowerChar_u, lowerChar_g.
  - intros (b & u & g & -> & Hb & Hu & Hg).
    destruct Hb as [-> | ->], Hu as [-> | ->], Hg as [-> | ->]; reflexivity.
Qed.

End LowerCase.

Lemma categoryOfAnswer_bug content :
  categoryOfAnswer content = bug <->
  exists s, content = Some s /\ JS.toLowerCase (JS.trim s) = "bug"%string.
Proof.
  unfold categoryOfAnswer. destruct content as [s|]; simpl.
  - destruct (String.eqb_spec (JS.toLowerCase (JS.trim s)) "bug") as [E | NE].
    + split; [ eauto | reflexivity ].
    + split; [ discriminate | ].
      intros (s' & [= <-] & E). contradiction.
  - split; [ discriminate | intros (s' & [=] & _) ].
Qed.

(** C9, as the claim words it, fails: an answer with white space around
    the word is no exact match of "bug" and still gives the category bug. *)
Lemma categorize_exact_match_counterexample :
  categoryOfAnswer (Some " bug"%string) = bug /\ ~ spec_matchesBug " bug".
Proof.
  split; [ reflexivity | ].
  intros (b & u & g & E & _). discriminate E.
Qed.

(** C9 (amended): the category is bug if and only if the answer, once its
    leading and trailing white space is trimmed, matches "bug" in any
    letter case; the empty answer, "maybe", "Bug!!" and a missing answer
    give feature; and [categorizeRequest] throws only if the call does. *)
Theorem categorize_bug_iff_trimmed_match (content : option string) :
  (categoryOfAnswer content = bug <->
   exists s, content = Some s /\ spec_matchesBug (JS.trim s))
  /\ categoryOfAnswer (Some ""%string) = feature
  /\ categoryOfAnswer (Some "maybe"%string) = feature
  /\ categoryOfAnswer (Some "Bug!!"%string) = feature
  /\ categoryOfAnswer None = feature
  /\ forall a t d,
       fst (categorizeRequest a t d)
       = match a_category a with
         | Ok c => Ok (categoryOfAnswer c)
         | Throw => Throw
         end.
Proof.
  split.
  - rewrite categoryOfAnswer_bug.
    split; intros (s & -> & H); exists s; split; auto; now apply toLowerCase_bug.
  - repeat split; try reflexivity.
    intros a t d. unfold categorizeRequest, await, bind, ret.
    destruct (a_category a); reflexivity.
Qed.

Lemma enhancedRecord_suffix content request :
  endsWith (description (enhancedRecord content request)) (originalSuffix request).
Proof. unfold enhancedRecord; simpl. eexists; reflexivity. Qed.

(** *** What the two regular expressions find *)

Lemma stripPrefix_Some p s r : JS.stripPrefix p s = Some r -> s = String.append p r.
Proof.
  revert s. induction p as [|a p IH]; intros s.
  - simpl. intros [= ->]. reflexivity.
  - destruct s as [|b s]; [ discriminate | ]. simpl.
    destruct (Ascii.eqb_spec a b) as [-> | _]; [ | discriminate ].
    intros H. rewrite (IH _ H). reflexivity.
Qed.

Lemma append_String c s t : String.append (String c s) t = String c (String.append s t).
Proof. reflexivity. Qed.

Lemma dotRun_String c s :
  JS.dotRun (String c s)
  = if JS.isLineTerminator c then EmptyString else String c (JS.dotRun s).
Proof. reflexivity. Qed.

Lemma dotRun_split s :
  exists post, s = String.append (JS.dotRun s) post
               /\ oneLine (JS.dotRun s) = true /\ lineEnds post = true.
Proof.
  induction s as [|c s (post & E & H1 & H2)].
  - exists EmptyString. repeat split.
  - rewrite dotRun_String. destruct (JS.isLineTerminator c) eqn:Ec.
    + exists (String c s). split; [ reflexivity | ]. split; [ reflexivity | exact Ec ].
    + exists post. rewrite append_String, <- E. split; [ reflexivity | ].
      split; [ | exact H2 ].
      unfold oneLine in *. cbn [allChars]. rewrite Ec, H1. reflexivity.
Qed.

Lemma matchLine_Some label s t :
  JS.matchLine label s = Some t ->
  t <> EmptyString
  /\ oneLine t = true
  /\ exists pre post,
       s = String.append pre (String.append label (String.append t post))
       /\ lineEnds post = true.
Proof.
  induction s as [|a s IH].
  - destruct label; simpl; discriminate.
  - cbn [JS.matchLine].
    assert (Later : JS.matchLine label s = Some t ->
                    t <> EmptyString /\ oneLine t = true
                    /\ exists pre post,
                         String a s = String.append pre (String.append label (String.append t post))
                         /\ lineEnds post = true).
    { intros H. destruct (IH H) as (H1 & H2 & pre & post & E & H3).
      split; [ exact H1 | ]. split; [ exact H2 | ].
      exists (String a pre), post. rewrite E. split; [ reflexivity | exact H3 ]. }
    destruct (JS.stripPrefix label (String a s)) as [[|c r]|] eqn:Ep; try exact Later.
    destruct (JS.isLineTerminator c) eqn:Ec; [ exact Later | ].
    intros [= <-]. apply stripPrefix_Some in Ep. clear Later IH. rewrite Ec.
    destruct (dotRun_split (String c r)) as (post & E & H1 & H2).
    rewrite dotRun_String, Ec in E, H1.
    split; [ discriminate | ]. split; [ exact H1 | ].
    exists EmptyString, post. rewrite <- E. split; [ exact Ep | exact H2 ].
Qed.

Lemma matchRest_Some label s d :
  JS.matchRest label s = Some d -> d <> EmptyString.
Proof.
  induction s as [|a s IH].
  - destruct label; simpl; discriminate.
  - cbn [JS.matchRest].
    destruct (JS.stripPrefix label (String a s)) as [[|c r]|]; try exact IH.
    intros [= <-]. discriminate.
Qed.

Lemma orElse_found (x : option string) (d : string) :
  (forall t, x = Some t -> t <> EmptyString) -> orElse x d = default d x.
Proof.
  intros H. destruct x as [[|c t]|]; try reflexivity.
  destruct (H EmptyString eq_refl eq_refl).
Qed.

(** C8, as the claim words it, fails: on an answer without the two labels
    the record that goes on has the original title but not the original
    description; and on an answer with the first label only, which has
    not the expected shape either, it has not even the original title. *)
Lemma enhance_parse_miss_counterexample :
  (spec_parseMiss refusal
   /\ description (enhancedRecord refusal sampleRequest) <> description sampleRequest)
  /\ (spec_parseMiss titleOnly
      /\ title (enhancedRecord titleOnly sampleRequest) = "Dark theme"%string
      /\ title (enhancedRecord titleOnly sampleRequest) <> title sampleRequest).
Proof.
  split.
  - split; [ left; reflexivity | ]. vm_compute. discriminate.
  - split; [ right; reflexivity | ]. split; [ reflexivity | ]. vm_compute. discriminate.
Qed.

(** C8 (amended): the two fields are read one by one: the title that
    goes on is the text found after "Enhanced Title: " and otherwise the
    original title; the description that goes on is the text found after
    "Enhanced Description: " and otherwise the original description, in
    both cases followed by the "Original title / Original description"
    block, which holds the original title and description verbatim.  So
    when the answer has not the expected shape, at least one of the two
    fields goes on as the original one (the description with the block
    after it), and a label that is found is still used.
    [enhanceRequest] throws only if the call does, never on the answer's
    shape. *)
Theorem enhance_parse_miss_appends_original
        (content : option string) (request : FeatureRequest) :
  let r := enhancedRecord content request in
  let foundTitle := content ≫= JS.matchLine "Enhanced Title: " in
  let foundDescription := content ≫= JS.matchRest "Enhanced Description: " in
  title r = default (title request) foundTitle
  /\ description r
     = String.append (default (description request) foundDescription)
                     (originalSuffix request)
  /\ (spec_parseMiss content ->
      (foundTitle = None /\ title r = title request)
      \/ (foundDescription = None
          /\ description r
             = String.append (description request) (originalSuffix request)))
  /\ (forall any : option string,
        endsWith (description (enhancedRecord any request))
          (String.append nl (String.append nl
             (String.append "Original title: " (String.append (title request)
                (String.append nl
                   (String.append "Original description: " (description request))))))))
  /\ (forall a : answers,
        fst (enhanceRequest a request)
        = match a_enhance a with
          | Ok c => Ok (enhancedRecord c request)
          | Throw => Throw
          end).
Proof.
  intros r foundTitle foundDescription.
  assert (Ht : title r = default (title request) foundTitle).
  { unfold r, enhancedRecord. cbn [title]. apply orElse_found.
    unfold foundTitle. destruct content as [s|]; [ | discriminate ].
    intros t H. apply (matchLine_Some _ _ _ H). }
  assert (Hd : description r
               = String.append (default (description request) foundDescription)
                               (originalSuffix request)).
  { unfold r, enhancedRecord. cbn [description]. f_equal. apply orElse_found.
    unfold foundDescription. destruct content as [s|]; [ | discriminate ].
    intros d H. apply (matchRest_Some _ _ _ H). }
  split; [ exact Ht | ]. split; [ exact Hd | ]. split; [ | split ].
  - intros [Hm | Hm].
    + left. split; [ exact Hm | ]. rewrite Ht. fold foundTitle in Hm. rewrite Hm.
      reflexivity.
    + right. split; [ exact Hm | ]. rewrite Hd. fold foundDescription in Hm.
      rewrite Hm. reflexivity.
  - intros any. apply (enhancedRecord_suffix any request).
  - intros a. unfold enhanceRequest, await, bind, ret.
    destruct (a_enhance a); reflexivity.
Qed.

(** * The two duplicate guards, row by row *)

Section Guards.
Variable Math_sin : float -> float.

(** C2: a row whose ItemId (of the original title and created_at) is in
    importedIds when the loop reaches it is skipped with no call at all,
    neither to the AI service nor to the board, and nothing of the
    state changes; the check stands before the first AI stage. *)
Theorem local_skip_makes_no_call
        (env : Env) (i : nat) (request : FeatureRequest) (s : LoopState) :
  includes (MD5.md5Hex (String.append (title request) (created_at request)))
           (importedIds (importState s)) = true ->
  let '(s', e) := body Math_sin env i request s in
  s' = s /\ e_outcome e = SkippedImported /\ e_events e = [].
Proof.
  intros H. unfold body. fold (generateItemId request) in H.
  rewrite H. auto.
Qed.

Local Ltac decide_rest :=
  match goal with
  | He : (if ?b then _ else _) = Some _ |- _ =>
      destruct b; [ destruct (a_enhance _) as [c|]; [ | discriminate ] | ];
      injection He as <-
  end;
  match goal with
  | Hc : match a_category ?a with Ok _ => _ | Throw => _ end = Some _ |- _ =>
      destruct (a_category a) as [c'|]; [ | discriminate ];
      injection Hc as <-
  end;
  simpl;
  rewrite bool_decide_eq_true_2 by assumption;
  (eexists; split;
   [ reflexivity
   | simpl; repeat (constructor; [ reflexivity | ]); constructor ]).

Lemma tryBlock_existing env a request s enhanced cat :
  passesFilter (config env) a = true ->
  decidedRequest (config env) a request = Some enhanced ->
  decidedCategory a = Some cat ->
  title enhanced ∈ existingPosts cat s ->
  exists t, tryBlock Math_sin env a request s = (Ok Existing, t)
            /\ Forall (fun ev => isAiCall (ev_call ev) = true) t.
Proof.
  unfold passesFilter, decidedRequest, decidedCategory, tryBlock.
  unfold isValidRequest, enhanceRequest, categorizeRequest, await, bind, ret.
  intros Hf He Hc Hin.
  destruct (String.eqb (INVALID_POSTS_AI_FILTERING (config env)) "true").
  - destruct (a_valid a) as [v|]; [ | discriminate ].
    simpl in Hf. rewrite Hf. simpl. decide_rest.
  - simpl. decide_rest.
Qed.

(** C3: a row that passes the local check and whose title, enhanced or
    not, is in the duplicate index of the category decided for it is
    skipped without user creation, post creation or vote, and the state
    stays as it was: ItemId not recorded, cursor not advanced, counter
    not incremented. *)
Theorem remote_duplicate_skip_leaves_state
        (env : Env) (i : nat) (request enhanced : FeatureRequest)
        (cat : category) (s : LoopState) :
  includes (generateItemId request) (importedIds (importState s)) = false ->
  passesFilter (config env) (script env i) = true ->
  decidedRequest (config env) (script env i) request = Some enhanced ->
  decidedCategory (script env i) = Some cat ->
  title enhanced ∈ existingPosts cat s ->
  let '(s', e) := body Math_sin env i request s in
  e_outcome e = SkippedExisting
  /\ List.filter isRemoteEvent (e_events e) = []
  /\ s' = s
  /\ includes (generateItemId request) (importedIds (importState s')) = false
  /\ cursor (importState s') = cursor (importState s)
  /\ importedPosts s' = importedPosts s.
Proof.
  intros Hl Hf He Hc Hin.
  destruct (tryBlock_existing env _ request s enhanced cat Hf He Hc Hin)
    as (t & Ht & Hai).
  unfold body. rewrite Hl, Ht. simpl.
  repeat split; auto.
  clear Ht. induction Hai as [|ev t Hev _ IH]; [ reflexivity | ].
  simpl. unfold isRemoteEvent at 1, isRemoteCall.
  rewrite Hev. exact IH.
Qed.

End Guards.

Lemma local_skip_makes_no_call_witness :
  includes (MD5.md5Hex (String.append (title sampleRequest) (created_at sampleRequest)))
           (importedIds (importState
              (stateWith ["7c2a4f9d"; generateItemId sampleRequest]%string 0 ∅))) = true
  /\ e_events (snd (body Number.sinTaylor aiEnv 4 sampleRequest
              (stateWith ["7c2a4f9d"; generateItemId sampleRequest]%string 0 ∅))) = [].
Proof.
  split; [ vm_compute; reflexivity | ].
  pose proof (local_skip_makes_no_call Number.sinTaylor aiEnv 4 sampleRequest
                (stateWith ["7c2a4f9d"; generateItemId sampleRequest]%string 0 ∅)) as H.
  destruct (body _ _ _ _ _) as [s' e]. simpl.
  apply H. vm_compute; reflexivity.
Defined.

Lemma remote_duplicate_skip_leaves_state_witness :
  let s := stateWith [] 0 {[ "Dark theme"%string ]} in
  title (enhancedRecord (Some sampleAnswer) sampleRequest) ∈ existingPosts feature s
  /\ e_outcome (snd (body Number.sinTaylor aiEnv 0 sampleRequest s)) = SkippedExisting.
Proof.
  intros s.
  assert (Hin : title (enhancedRecord (Some sampleAnswer) sampleRequest)
                ∈ existingPosts feature s).
  { vm_compute. reflexivity. }
  split; [ exact Hin | ].
  pose proof (remote_duplicate_skip_leaves_state Number.sinTaylor aiEnv 0 sampleRequest
                (enhancedRecord (Some sampleAnswer) sampleRequest) feature s
                eq_refl eq_refl eq_refl eq_refl Hin) as H.
  destruct (body _ _ _ _ _) as [s' e]. simpl. apply H.
Defined.

(** * The item identifier *)

Lemma generateItemId_concat r1 r2 :
  String.append (title r1) (created_at r1) = String.append (title r2) (created_at r2) ->
  generateItemId r1 = generateItemId r2.
Proof. unfold generateItemId. intros ->. reflexivity. Qed.

(** C10: the ItemId is the hash of title and created_at written one after
    the other with nothing between them; so there are two rows with
    different (title, created_at) pairs, the same concatenation and hence
    the same ItemId, and in a run over both the first is imported and the
    second is skipped by the local check, with no call, though no post
    was ever made for it. *)
Theorem itemId_collision_skips_unimported_row :
  (forall r, generateItemId r = MD5.md5Hex (String.append (title r) (created_at r)))
  /\ exists r1 r2 : FeatureRequest,
       (title r1, created_at r1) <> (title r2, created_at r2)
       /\ String.append (title r1) (created_at r1)
          = String.append (title r2) (created_at r2)
       /\ generateItemId r1 = generateItemId r2
       /\ forall Math_sin,
            let run := main Math_sin noVotersEnv [r1; r2] ∅ ∅ None in
            (e_outcome <$> entries run) = [Imported; SkippedImported]
            /\ (e_events <$> entries run) !! 1%nat = Some []
            /\ omap (postedOn feature) (allEvents (entries run)) = [title r1]
            /\ importedIds (importState (final run)) = [generateItemId r2].
Proof.
  split; [ reflexivity | ].
  exists rowNotes1, rowNotes.
  split; [ discriminate | ].
  split; [ reflexivity | ].
  split; [ apply generateItemId_concat; reflexivity | ].
  intros Math_sin. vm_compute. repeat split; reflexivity.
Qed.

(** * The vote simulator *)

Section ShuffleFacts.
Variable Math_sin : float -> float.
Context {A : Type}.

Lemma seedNumber_from acc (l : list ascii) :
  fold_left (fun a char => a + JS.charCode char) l acc
  = acc + foldr Z.add 0 (JS.charCode <$> l).
Proof.
  revert acc. induction l as [|c l IH]; intros acc.
  - cbn [fold_left fmap list_fmap foldr]. lia.
  - cbn [fold_left fmap list_fmap foldr]. rewrite IH.
    fold (@fmap list _ _ _ JS.charCode l). lia.
Qed.

Lemma seedNumber_spec_seed (postId : string) : seedNumber postId = spec_seed postId.
Proof. unfold seedNumber, spec_seed. rewrite seedNumber_from. lia. Qed.

Lemma countdown_S (m : nat) : countdown (S m) = S m :: countdown m.
Proof. unfold countdown. rewrite seq_S, reverse_snoc. reflexivity. Qed.

(** The [while] loop is the fold over the countdown. *)
Lemma shuffleLoop_countdown (seed : Z) (m : nat) (array : jsArray A) :
  shuffleLoop Math_sin seed m array
  = foldl (fun a m => spec_swap a (m - 1) (spec_index Math_sin seed m))
          array (countdown m).
Proof.
  revert array. induction m as [|m IH]; intros array.
  - reflexivity.
  - rewrite countdown_S. cbn [shuffleLoop foldl]. rewrite IH.
    replace (S m - 1)%nat with m by lia.
    reflexivity.
Qed.

Lemma shuffleArray_spec_shuffle (pool : list A) (postId : string) :
  shuffleArray Math_sin (ofList pool) postId = spec_shuffle Math_sin pool postId.
Proof.
  unfold shuffleArray, spec_shuffle.
  rewrite shuffleLoop_countdown, seedNumber_spec_seed.
  unfold ofList; simpl. rewrite length_fmap. reflexivity.
Qed.

(** C1: the voter order is the one of the specified algorithm: the seed
    is the sum of the character codes of the post identifier, and for m
    from the pool size down to 1 the element at place m-1 is exchanged
    with the one at place floor(frac(sin(seed + m) * 10000) * m), on a
    copy of the pool; the order is therefore a function of the pool and
    the identifier alone, the same at every invocation. *)
Theorem shuffle_follows_specified_algorithm (pool : list A) (postId : string) :
  seedNumber postId = foldr Z.add 0 (JS.charCode <$> JS.chars postId)
  /\ shuffleArray Math_sin (ofList pool) postId
     = foldl (fun a m =>
                spec_swap a (m - 1)
                  (Number.floor
                     (spec_frac (Math_sin (Number.ofZ (seedNumber postId + Z.of_nat m))
                                 * 10000)
                      * Number.ofZ (Z.of_nat m))%float))
             (ofList pool) (countdown (length pool))
  /\ shuffleArray Math_sin (ofList pool) postId = spec_shuffle Math_sin pool postId
  /\ forall count,
       slice0 (shuffleArray Math_sin (ofList pool) postId) count
       = slice0 (spec_shuffle Math_sin pool postId) count.
Proof.
  pose proof (shuffleArray_spec_shuffle pool postId) as E.
  split; [ apply seedNumber_spec_seed | ].
  split; [ rewrite E, seedNumber_spec_seed; reflexivity | ].
  split; [ exact E | ].
  intros count. rewrite E. reflexivity.
Qed.

(** *** Exchanges that stay inside the array *)

Lemma spec_swap_inside (l : list A) ps (p i : nat) (q : float) (x y : A) :
  Number.arrayIndex q = Some i ->
  l !! p = Some x ->
  l !! i = Some y ->
  spec_swap {| elems := Some <$> l; props := ps |} p q
  = {| elems := Some <$> <[i := x]> (<[p := y]> l); props := ps |}.
Proof.
  intros Hq Hp Hi.
  assert (Lp : (p < length l)%nat) by (eapply lookup_lt_Some; eauto).
  assert (Li : (i < length l)%nat) by (eapply lookup_lt_Some; eauto).
  unfold spec_swap, get, set, getIndex, setIndex. rewrite Hq. simpl.
  rewrite !list_lookup_fmap, Hp, Hi. simpl.
  rewrite length_fmap.
  destruct (Nat.ltb_spec p (length l)) as [_|]; [ | lia ].
  rewrite length_insert, length_fmap.
  destruct (Nat.ltb_spec i (length l)) as [_|]; [ | lia ].
  rewrite !list_fmap_insert. reflexivity.
Qed.

Lemma shuffle_inside (seed : Z) (m : nat) :
  forall (l : list A) ps,
    forallb (indexInRange Math_sin seed) (seq 1 m) = true ->
    (m <= length l)%nat ->
    exists l',
      foldl (fun a m => spec_swap a (m - 1) (spec_index Math_sin seed m))
            {| elems := Some <$> l; props := ps |} (countdown m)
      = {| elems := Some <$> l'; props := ps |}
      /\ l' ≡ₚ l.
Proof.
  induction m as [|m IH]; intros l ps Hr Hm.
  - exists l. split; reflexivity.
  - rewrite seq_S, forallb_app in Hr. apply andb_prop in Hr as [Hr Hlast].
    simpl in Hlast. rewrite andb_true_r in Hlast.
    unfold indexInRange in Hlast.
    destruct (Number.arrayIndex (spec_index Math_sin seed (S m))) as [i|] eqn:Hq;
      [ | discriminate ].
    apply Nat.ltb_lt in Hlast.
    destruct (lookup_lt_is_Some_2 l m ltac:(lia)) as [x Hx].
    destruct (lookup_lt_is_Some_2 l i ltac:(lia)) as [y Hy].
    rewrite countdown_S. cbn [foldl].
    replace (S m - 1)%nat with m by lia.
    rewrite (spec_swap_inside l ps m i _ x y Hq Hx Hy).
    destruct (IH (<[i := x]> (<[m := y]> l)) ps Hr) as (l' & E & P).
    { rewrite !length_insert. lia. }
    exists l'. split; [ exact E | ].
    rewrite P. apply Permutation_insert_swap; assumption.
Qed.

(** With every exchange inside the array the shuffled copy is a
    rearrangement of the pool, with no hole and no other property. *)
Lemma shuffleArray_permutation (pool : list A) (postId : string) :
  shuffleInRange Math_sin (length pool) postId = true ->
  exists order,
    shuffleArray Math_sin (ofList pool) postId = {| elems := Some <$> order; props := [] |}
    /\ order ≡ₚ pool.
Proof.
  intros Hr.
  rewrite shuffleArray_spec_shuffle.
  unfold spec_shuffle, ofList.
  apply shuffle_inside; [ exact Hr | lia ].
Qed.

End ShuffleFacts.

Section Votes.
Variable Math_sin : float -> float.

Lemma castVotes_all_resolve votes postID (voters : list FakeUser) :
  (forall k, votes k = Ok tt) ->
  forall k, castVotes votes postID k (Some <$> voters)
            = (Ok tt, voteEvent postID <$> voters).
Proof.
  intros Hv. induction voters as [|v voters IH]; intros k.
  - reflexivity.
  - cbn [fmap list_fmap castVotes]. unfold bind, await.
    rewrite Hv. fold (@fmap list _ _ _ (@Some FakeUser) voters).
    rewrite IH. reflexivity.
Qed.

Lemma slice0_count {A} (a : jsArray A) (n : nat) :
  slice0 a (Some (Z.of_nat n)) = take n (elems a).
Proof.
  unfold slice0.
  destruct (Z.ltb_spec (Z.of_nat n) 0) as [|_]; [ lia | ].
  destruct (Nat.le_ge_cases n (length (elems a))) as [Hle | Hge].
  - rewrite Z.min_l by lia. rewrite Nat2Z.id. reflexivity.
  - rewrite Z.min_r by lia. rewrite Nat2Z.id.
    rewrite !take_ge by lia. reflexivity.
Qed.

Lemma castVotes_stops votes postID (voters : list FakeUser) :
  forall k j v,
    (forall m, (m < j)%nat -> votes (k + m)%nat = Ok tt) ->
    votes (k + j)%nat = Throw ->
    voters !! j = Some v ->
    castVotes votes postID k (Some <$> voters)
    = (Throw, (voteEvent postID <$> take j voters)
                ++ [Event (CreateVote postID (id v)) false]).
Proof.
  induction voters as [|w voters IH]; intros k j v Hok Hthrow Hv.
  - discriminate.
  - cbn [fmap list_fmap castVotes]. unfold bind, await.
    fold (@fmap list _ _ _ (@Some FakeUser) voters).
    destruct j as [|j].
    + rewrite Nat.add_0_r in Hthrow. rewrite Hthrow.
      injection Hv as ->. reflexivity.
    + assert (E0 : votes k = Ok tt)
        by (rewrite <- (Nat.add_0_r k); apply Hok; lia).
      rewrite E0.
      rewrite (IH (S k) j v); [ reflexivity | | | exact Hv ].
      * intros m Hm. replace (S k + m)%nat with (k + S m)%nat by lia.
        apply Hok. lia.
      * replace (S k + j)%nat with (k + S j)%nat by lia. exact Hthrow.
Qed.





End Votes.


(** * Rows and runs of the import loop *)

Section Rows.
Variable Math_sin : float -> float.

Lemma await_eq {A} (c : call) (r : result A) :
  await c r = match r with
              | Ok v => (Ok v, [Event c true])
              | Throw => (Throw, [Event c false])
              end.
Proof. unfold await. destruct r; reflexivity. Qed.

Lemma bind_ok {A B} (x : A) (t : list event) (k : A -> M B) :
  bind (Ok x, t) k = (fst (k x), t ++ snd (k x)).
Proof. unfold bind. destruct (k x); reflexivity. Qed.

(** Vote calls put no title on a board. *)
Lemma castVotes_posts_nothing votes postID voters :
  forall k board, omap (postedOn board) (snd (castVotes votes postID k voters)) = [].
Proof.
  induction voters as [|[v|] voters IH]; intros k board; try reflexivity.
  cbn [castVotes]. rewrite await_eq.
  destruct (votes k); [ rewrite bind_ok; simpl; apply IH | reflexivity ].
Qed.

Lemma addVotes_posts_nothing a postID count pool board :
  omap (postedOn board) (snd (addVotes Math_sin a postID count pool)) = [].
Proof.
  unfold addVotes. destruct postID; [ apply castVotes_posts_nothing | reflexivity ].
Qed.

Local Ltac expose :=
  unfold tryBlock, isValidRequest, enhanceRequest, categorizeRequest,
    createOrUpdateUser, createPost, bind, await, ret.

Local Ltac case_step :=
  match goal with
  | |- context [String.eqb ?x "true"] => destruct (String.eqb x "true") eqn:?
  | |- context [a_valid ?a] => destruct (a_valid a) eqn:?
  | |- context [a_enhance ?a] => destruct (a_enhance a) eqn:?
  | |- context [a_category ?a] => destruct (a_category a) eqn:?
  | |- context [validOfAnswer ?v] => destruct (validOfAnswer v) eqn:?
  | |- context [bool_decide ?P] => destruct (bool_decide P) eqn:?
  | |- context [a_user ?a] => destruct (a_user a) eqn:?
  | |- context [a_post ?a] => destruct (a_post a) eqn:?
  | |- context [addVotes ?f ?a ?p ?c ?u] =>
      let tv := fresh "tv" in
      destruct (addVotes f a p c u) as [[[]|] tv] eqn:?
  end.

Local Ltac replay :=
  repeat (simpl;
          match goal with
          | H : ?l = _ |- context [?l] => rewrite H
          end).

Local Ltac skip_case :=
  constructor;
  [ repeat (constructor; [ reflexivity | ]); constructor
  | let env2 := fresh "env2" in
    let a2 := fresh "a2" in
    let Hc := fresh "Hc" in
    let H1 := fresh "H1" in
    let H2 := fresh "H2" in
    let H3 := fresh "H3" in
    intros env2 a2 Hc (H1 & H2 & H3);
    expose; rewrite Hc, <- H1, <- H2, <- H3; clear Hc H1 H2 H3;
    replay; reflexivity ].

Local Ltac published_case :=
  apply TryPublished;
  let board := fresh "board" in
  intros board; simpl;
  match goal with
  | H : addVotes ?f ?a ?p ?c ?u = (_, ?tv) |- _ =>
      let P := fresh "P" in
      pose proof (addVotes_posts_nothing a p c u board) as P;
      rewrite H in P; simpl in P;
      rewrite omap_app, P
  end;
  simpl; destruct (decide _); reflexivity.

Lemma tryBlock_shape env a request s :
  tryShape Math_sin env a request s (tryBlock Math_sin env a request s).
Proof.
  remember (tryBlock Math_sin env a request s) as m eqn:Em.
  assert (Hm := Em). revert Hm. rewrite Em at 2. clear Em.
  expose. repeat (simpl; case_step).
  all: simpl; intros ->.
  all: first [ apply TryThrow | published_case | skip_case ].
Qed.

End Rows.

Section Runs.
Variable Math_sin : float -> float.

Lemma body_shape env i request s :
  bodyShape Math_sin env i request s (body Math_sin env i request s).
Proof.
  unfold body.
  destruct (includes _ _) eqn:Hin.
  - apply BodySkip; [ left; reflexivity | constructor | ].
    intros env2 _ _. unfold body. rewrite Hin. reflexivity.
  - destruct (tryBlock_shape Math_sin env (script env i) request s)
      as [t Hai Hre | t Hai Hre | enhanced cat t Hp | t].
    + apply BodySkip; [ right; left; reflexivity | exact Hai | ].
      intros env2 Hc Hs. unfold body. rewrite Hin, (Hre env2 _ Hc Hs). reflexivity.
    + apply BodySkip; [ right; right; reflexivity | exact Hai | ].
      intros env2 Hc Hs. unfold body. rewrite Hin, (Hre env2 _ Hc Hs). reflexivity.
    + apply BodyImported; assumption.
    + apply BodyErrored; assumption.
Qed.

Lemma includes_false x l : includes x l = false <-> x ∉ l.
Proof.
  unfold includes. rewrite <- not_true_iff_false, existsb_exists.
  split.
  - intros H Hin. apply H. exists x. split; [ | apply String.eqb_refl ].
    apply list_elem_of_In, Hin.
  - intros H (y & Hy & E). apply String.eqb_eq in E as <-.
    apply H, list_elem_of_In, Hy.
Qed.

Lemma imports_cons e es :
  imports (e :: es)
  = ((if decide (e_outcome e = Imported) then 1 else 0) + imports es)%nat.
Proof.
  unfold imports. rewrite filter_cons.
  destruct (decide (e_outcome e = Imported)); reflexivity.
Qed.

Lemma ai_events_not_remote t :
  Forall (fun ev => isAiCall (ev_call ev) = true) t ->
  List.filter isRemoteEvent t = [] /\ forall board, omap (postedOn board) t = [].
Proof.
  induction 1 as [|[c b] t Hc _ [IH1 IH2]]; [ split; reflexivity | ].
  simpl in Hc. split.
  - simpl. unfold isRemoteEvent at 1, isRemoteCall. simpl. rewrite Hc. exact IH1.
  - intros board. simpl. rewrite IH2.
    destruct c; try discriminate; destruct b; reflexivity.
Qed.

(** Unfolding of one turn of the loop. *)
Lemma loop_cons env mp i request rest s :
  loop Math_sin env mp i (request :: rest) s
  = if capReached (importedPosts s) mp
    then {| final := s; entries := []; stop := CapReached i |}
    else
      let r := loop Math_sin env mp (S i) rest (fst (body Math_sin env i request s)) in
      {| final := final r;
         entries := snd (body Math_sin env i request s) :: entries r;
         stop := stop r |}.
Proof.
  cbn [loop]. destruct (capReached _ _); [ reflexivity | ].
  destruct (body _ _ _ _ _); reflexivity.
Qed.

Local Ltac turn env i request s :=
  rewrite loop_cons;
  let Hb := fresh "Hb" in
  pose proof (body_shape env i request s) as Hb;
  destruct (capReached (importedPosts s) _) eqn:?;
  [ | destruct (body Math_sin env i request s) as [? ?];
      cbn [fst snd final entries stop];
      inversion Hb; subst; clear Hb ].


(** The counter goes up by one with every import, and only then. *)
Lemma loop_counter env mp rows :
  forall i s,
    importedPosts (final (loop Math_sin env mp i rows s))
    = (importedPosts s + imports (entries (loop Math_sin env mp i rows s)))%nat.
Proof.
  induction rows as [|request rest IH]; intros i s.
  - cbn. unfold imports. simpl. lia.
  - turn env i request s.
    + cbn. unfold imports. simpl. lia.
    + rewrite IH, imports_cons. simpl.
      destruct (decide (o = Imported)) as [-> | _]; [ | lia ].
      match goal with H : isSkip Imported |- _ => destruct H as [|[|]]; discriminate end.
    + rewrite IH, imports_cons. simpl. lia.
    + rewrite IH, imports_cons. simpl. lia.
Qed.

(** A run that imports nothing leaves the state as it found it. *)
Lemma loop_quiet env mp rows :
  forall i s,
    imports (entries (loop Math_sin env mp i rows s)) = 0%nat ->
    final (loop Math_sin env mp i rows s) = s.
Proof.
  induction rows as [|request rest IH]; intros i s.
  - reflexivity.
  - turn env i request s.
    + reflexivity.
    + rewrite imports_cons. intros H. apply IH. lia.
    + rewrite imports_cons. simpl. discriminate.
    + rewrite imports_cons. intros H. apply IH. lia.
Qed.

Lemma commit_consistent i itemId enhanced cat s :
  consistent s -> consistent (commit i itemId enhanced cat s).
Proof.
  intros [Hc _]. split; simpl.
  - rewrite length_app, Hc. simpl. lia.
  - reflexivity.
Qed.

Lemma loop_consistent env mp rows :
  forall i s, consistent s -> consistent (final (loop Math_sin env mp i rows s)).
Proof.
  induction rows as [|request rest IH]; intros i s Hs.
  - exact Hs.
  - turn env i request s; auto using commit_consistent.
Qed.


(** *** A failed row *)


Lemma main_consistent env requests featureTitles bugTitles file :
  consistent (final (main Math_sin env requests featureTitles bugTitles file)).
Proof.
  unfold main. apply loop_consistent. split; reflexivity.
Qed.

End Runs.

(** * The cap on imported posts *)

Section Cap.
Variable Math_sin : float -> float.

Lemma loop_withMaxPosts v env mp rows :
  forall i s,
    loop Math_sin (withMaxPosts v env) mp i rows s = loop Math_sin env mp i rows s.
Proof.
  induction rows as [|request rest IH]; intros i s; [ reflexivity | ].
  rewrite !loop_cons.
  change (body Math_sin (withMaxPosts v env) i request s)
    with (body Math_sin env i request s).
  rewrite IH. reflexivity.
Qed.

(** With more rows to import than the cap leaves room for, the loop
    imports what is left of the cap and stops by [break]. *)
Lemma loop_cap env (k : Z) rows :
  forall i s,
    Z.of_nat (imports (entries (loop Math_sin env None i rows s)))
      > Z.max 0 (k - Z.of_nat (importedPosts s)) ->
    Z.of_nat (imports (entries (loop Math_sin env (Some k) i rows s)))
      = Z.max 0 (k - Z.of_nat (importedPosts s))
    /\ exists j, stop (loop Math_sin env (Some k) i rows s) = CapReached j.
Proof.
  induction rows as [|request rest IH]; intros i s.
  - cbn. unfold imports. simpl. lia.
  - rewrite !loop_cons. cbn [capReached].
    destruct (Z.leb_spec k (Z.of_nat (importedPosts s))) as [Hle | Hlt].
    + intros _. cbn [final entries stop]. change (imports []) with 0%nat.
      split; [ lia | eauto ].
    + pose proof (body_shape Math_sin env i request s) as Hb.
      destruct (body Math_sin env i request s) as [s' e].
      cbn [fst snd final entries stop]. rewrite !imports_cons.
      inversion Hb; subst; clear Hb; cbn [e_outcome].
      * destruct (decide (o = Imported)) as [-> | _].
        { match goal with H : isSkip Imported |- _ =>
            destruct H as [|[|]]; discriminate end. }
        intros H. destruct (IH (S i) s') as [E S']; [ lia | ].
        split; [ lia | exact S' ].
      * destruct (decide (Imported = Imported)) as [_ | N]; [ | contradiction ].
        intros H.
        destruct (IH (S i) (commit i (generateItemId request) enhanced cat s))
          as [E S']; simpl in *; [ lia | ].
        split; [ lia | exact S' ].
      * destruct (decide (Errored = Imported)) as [N | _]; [ discriminate | ].
        intros H. destruct (IH (S i) s') as [E S']; [ lia | ].
        split; [ lia | exact S' ].
Qed.

(** C5 (amended): with maxPosts = k, j ItemIds recorded in the state
    when the run starts and more eligible rows than max(0, k - j), the
    run imports exactly max(0, k - j) posts and then leaves the loop by
    [break], not by an error; the counter starts at j, not at zero: it
    counts the recorded ids and the posts of this run together against
    the ceiling. On a fresh state (j = 0) exactly k posts are imported. *)
Theorem cap_counts_recorded_ids
        (env : Env) (requests : list FeatureRequest)
        (featureTitles bugTitles : gset string) (file : option ImportState)
        (k : Z) :
  parseInt (MAX_POSTS (config env)) = Some k ->
  let recorded := length (importedIds (loadOrCreateImportState file)) in
  Z.of_nat (eligibleRows Math_sin env requests featureTitles bugTitles file)
    > Z.max 0 (k - Z.of_nat recorded) ->
  let run := main Math_sin env requests featureTitles bugTitles file in
  Z.of_nat (imports (entries run)) = Z.max 0 (k - Z.of_nat recorded)
  /\ (exists j, stop run = CapReached j)
  /\ importedPosts (final run) = (recorded + imports (entries run))%nat
  /\ (recorded = 0%nat -> 0 <= k -> imports (entries run) = Z.to_nat k).
Proof.
  intros Hk recorded Hel run.
  unfold eligibleRows, main in Hel. rewrite loop_withMaxPosts in Hel.
  change (parseInt (MAX_POSTS (config (withMaxPosts "Infinity" env))))
    with (@None Z) in Hel.
  change (Z.of_nat recorded)
    with (Z.of_nat (importedPosts (initialState featureTitles bugTitles file))) in Hel.
  destruct (loop_cap env k _ _ _ Hel) as [E S'].
  change (importedPosts (initialState featureTitles bugTitles file))
    with recorded in E.
  unfold run, main. rewrite Hk.
  split; [ exact E | ]. split; [ exact S' | ]. split.
  - rewrite loop_counter. reflexivity.
  - intros H0 Hpos. apply Nat2Z.inj. rewrite E, H0, Z2Nat.id by lia. lia.
Qed.

End Cap.

(** C5, as the claim words it, fails: with maxPosts = 1, one ItemId
    recorded by an earlier run and two eligible rows left, the run
    imports no post at all, not one: the counter starts at the number of
    recorded ids. *)
Lemma cap_counts_this_run_counterexample :
  let run := main Number.sinTaylor (cappedEnv "1") threeRows ∅ ∅ firstRecorded in
  parseInt (MAX_POSTS (config (cappedEnv "1"))) = Some 1
  /\ eligibleRows Number.sinTaylor (cappedEnv "1") threeRows ∅ ∅ firstRecorded = 2%nat
  /\ imports (entries run) = 0%nat
  /\ stop run = CapReached 1
  /\ importedPosts (final run) = 1%nat.
Proof. vm_compute. repeat split; reflexivity. Qed.

Lemma cap_counts_recorded_ids_witness :
  let run := main Number.sinTaylor (cappedEnv "2") tenRows ∅ ∅ None in
  parseInt (MAX_POSTS (config (cappedEnv "2"))) = Some 2
  /\ Z.of_nat (eligibleRows Number.sinTaylor (cappedEnv "2") tenRows ∅ ∅ None)
       > Z.max 0 (2 - Z.of_nat (length (importedIds (loadOrCreateImportState None))))
  /\ Z.of_nat (imports (entries run)) = 2.
Proof.
  intros run.
  assert (H1 : parseInt (MAX_POSTS (config (cappedEnv "2"))) = Some 2) by reflexivity.
  assert (H2 : Z.of_nat (eligibleRows Number.sinTaylor (cappedEnv "2") tenRows ∅ ∅ None)
               > Z.max 0 (2 - Z.of_nat (length (importedIds (loadOrCreateImportState None))))).
  { vm_compute. reflexivity. }
  split; [ exact H1 | ]. split; [ exact H2 | ].
  exact (proj1 (cap_counts_recorded_ids Number.sinTaylor (cappedEnv "2") tenRows
                  ∅ ∅ None 2 H1 H2)).
Defined.

(** * A second run over the same rows *)

#[local] Set Warnings "-clear-no-such-hyp".

Section Rerun.
Variable Math_sin : float -> float.

Local Ltac turn env i request s :=
  rewrite loop_cons;
  let Hb := fresh "Hb" in
  pose proof (body_shape Math_sin env i request s) as Hb;
  destruct (capReached (importedPosts s) _) eqn:?;
  [ | destruct (body Math_sin env i request s) as [? ?];
      cbn [fst snd final entries stop];
      inversion Hb; subst; clear Hb ].

Local Ltac not_skip :=
  match goal with
  | H : isSkip Imported |- _ => destruct H as [|[|]]; discriminate
  | H : isSkip Errored |- _ => destruct H as [|[|]]; discriminate
  end.

Lemma run_eta (r : Run) :
  r = {| final := final r; entries := entries r; stop := stop r |}.
Proof. destruct r; reflexivity. Qed.

Lemma allEvents_cons e es : allEvents (e :: es) = e_events e ++ allEvents es.
Proof. reflexivity. Qed.

Lemma noError_cons e es : noError (e :: es) <-> e_outcome e <> Errored /\ noError es.
Proof. unfold noError. rewrite Forall_cons. reflexivity. Qed.

(** Without errors the sets in memory are the boards: what was there at
    the start and the titles of the posts created since. *)
Lemma loop_boards env mp rows board :
  forall i s,
    noError (entries (loop Math_sin env mp i rows s)) ->
    boardAfter board (existingPosts board s) (entries (loop Math_sin env mp i rows s))
    = existingPosts board (final (loop Math_sin env mp i rows s)).
Proof.
  unfold boardAfter.
  induction rows as [|request rest IH]; intros i s.
  - intros _. cbn. set_solver.
  - turn env i request s.
    + intros _. cbn. set_solver.
    + intros [_ Hn]%noError_cons. rewrite <- (IH _ _ Hn).
      rewrite allEvents_cons, omap_app. cbn [e_events].
      match goal with H : Forall _ _ |- _ =>
        destruct (ai_events_not_remote _ H) as [_ ->] end.
      reflexivity.
    + intros [_ Hn]%noError_cons. rewrite <- (IH _ _ Hn).
      rewrite allEvents_cons, omap_app. cbn [e_events].
      match goal with H : forall b, omap (postedOn b) _ = _ |- _ => rewrite H end.
      destruct board, cat; simpl; set_solver.
    + intros [Hn _]%noError_cons. contradiction.
Qed.

(** After the last import of a run the loop went on from the cursor with
    the final state and changed nothing more. *)
Lemma loop_resume env mp rows :
  forall i s,
    (0 < imports (entries (loop Math_sin env mp i rows s)))%nat ->
    let r := loop Math_sin env mp i rows s in
    let c := cursor (importState (final r)) in
    (i < c)%nat
    /\ exists es,
         loop Math_sin env mp c (drop (c - i) rows) (final r)
         = {| final := final r; entries := es; stop := stop r |}
         /\ imports es = 0%nat
         /\ (forall e, e ∈ es -> e ∈ entries r).
Proof.
  induction rows as [|request rest IH]; intros i s.
  - cbn. unfold imports. simpl. lia.
  - assert (Later : forall st e0,
              (0 < imports (entries (loop Math_sin env mp (S i) rest st)))%nat ->
              let r := loop Math_sin env mp (S i) rest st in
              let c := cursor (importState (final r)) in
              (i < c)%nat
              /\ exists es,
                   loop Math_sin env mp c (drop (c - i) (request :: rest)) (final r)
                   = {| final := final r; entries := es; stop := stop r |}
                   /\ imports es = 0%nat
                   /\ (forall e, e ∈ es -> e ∈ e0 :: entries r)).
    { intros st e0 Hp. destruct (IH (S i) st Hp) as (Hlt & es & E & Hz & Hsub).
      cbn zeta in *. split; [ lia | ].
      exists es. split; [ | split; [ exact Hz | intros e He; right; auto ] ].
      rewrite <- E. f_equal.
      match goal with |- drop (?c - i) _ = _ =>
        replace (c - i)%nat with (S (c - S i)) by lia end.
      reflexivity. }
    cbn zeta. turn env i request s.
    + cbn. unfold imports. simpl. lia.
    + rewrite imports_cons. cbn [e_outcome].
      destruct (decide (o = Imported)) as [-> | _]; [ not_skip | ].
      intros H. apply Later. lia.
    + intros _.
      set (st := commit i (generateItemId request) enhanced cat s).
      assert (Hst : cursor (importState st) = S i) by (simpl; lia).
      destruct (Nat.eq_0_gt_0_cases
                  (imports (entries (loop Math_sin env mp (S i) rest st)))) as [Hz | Hp].
      * pose proof (loop_quiet Math_sin _ _ _ _ _ Hz) as Hq.
        rewrite Hq, Hst. split; [ lia | ].
        exists (entries (loop Math_sin env mp (S i) rest st)).
        split; [ | split; [ exact Hz | intros e He; right; auto ] ].
        replace (S i - i)%nat with 1%nat by lia.
        change (drop 1 (request :: rest)) with rest.
        destruct (loop Math_sin env mp (S i) rest st) as [f es' sp].
        simpl in Hq. subst f. reflexivity.
      * apply Later. exact Hp.
    + rewrite imports_cons. cbn [e_outcome].
      destruct (decide (Errored = Imported)) as [N | _]; [ discriminate | ].
      intros H. apply Later. lia.
Qed.

(** A stretch of rows that imported nothing and met no error runs again
    to the same entries when the AI answers and the configuration are the
    same, whatever the board answers and whoever the voters are. *)
Lemma loop_replay env env2 mp rows :
  config env2 = config env ->
  (forall i, sameAI (script env i) (script env2 i)) ->
  forall i s,
    imports (entries (loop Math_sin env mp i rows s)) = 0%nat ->
    noError (entries (loop Math_sin env mp i rows s)) ->
    loop Math_sin env2 mp i rows s = loop Math_sin env mp i rows s.
Proof.
  intros Hc Hai.
  induction rows as [|request rest IH]; intros i s; [ reflexivity | ].
  rewrite (loop_cons Math_sin env2). turn env i request s.
  - reflexivity.
  - rewrite imports_cons. intros Hz [_ Hn]%noError_cons.
    match goal with H : forall env2, _ -> _ -> body _ _ _ _ _ = _ |- _ =>
      rewrite (H env2 Hc (Hai i)) end.
    cbn [fst snd]. rewrite IH by (assumption || lia). reflexivity.
  - rewrite imports_cons. simpl. discriminate.
  - intros _ [Hn _]%noError_cons. contradiction.
Qed.

(** In such a stretch every row is skipped, with AI calls at most. *)
Lemma loop_skips env mp rows :
  forall i s,
    imports (entries (loop Math_sin env mp i rows s)) = 0%nat ->
    noError (entries (loop Math_sin env mp i rows s)) ->
    Forall (fun e => isSkip (e_outcome e)) (entries (loop Math_sin env mp i rows s))
    /\ List.filter isRemoteEvent (allEvents (entries (loop Math_sin env mp i rows s))) = [].
Proof.
  induction rows as [|request rest IH]; intros i s.
  - intros _ _. split; [ constructor | reflexivity ].
  - turn env i request s.
    + intros _ _. split; [ constructor | reflexivity ].
    + rewrite imports_cons. intros Hz [_ Hn]%noError_cons.
      match type of Hn with
      | noError (entries ?L) =>
          assert (Hz' : imports (entries L) = 0%nat) by lia
      end.
      destruct (IH _ _ Hz' Hn) as [Hs Hr].
      split; [ constructor; assumption | ].
      rewrite allEvents_cons, List.filter_app, Hr. cbn [e_events].
      match goal with H : Forall _ _ |- _ =>
        destruct (ai_events_not_remote _ H) as [-> _] end.
      reflexivity.
    + rewrite imports_cons. simpl. discriminate.
    + intros _ [Hn _]%noError_cons. contradiction.
Qed.

Lemma noError_sub es es' :
  (forall e, e ∈ es' -> e ∈ es) -> noError es -> noError es'.
Proof.
  unfold noError. rewrite !Forall_forall. intros Hsub H e He. apply H, Hsub, He.
Qed.

(** C6: a second run over the same rows, with the boards as the first run
    left them, the state file as it wrote it, the same configuration and
    the same AI answers, when no row of the first run failed, imports no
    post and makes no call to the board at all: every row it visits is
    skipped, because its ItemId is recorded, because it is filtered as
    invalid again, or because its title is on the board of its category;
    the state is left as the first run left it. *)
Theorem second_run_imports_nothing
        (env env2 : Env) (requests : list FeatureRequest)
        (featureTitles bugTitles : gset string) (file : option ImportState) :
  config env2 = config env ->
  (forall i, sameAI (script env i) (script env2 i)) ->
  let run1 := main Math_sin env requests featureTitles bugTitles file in
  noError (entries run1) ->
  let run2 := main Math_sin env2 requests
                   (boardAfter feature featureTitles (entries run1))
                   (boardAfter bug bugTitles (entries run1))
                   (disk (final run1)) in
  imports (entries run2) = 0%nat
  /\ List.filter isRemoteEvent (allEvents (entries run2)) = []
  /\ Forall (fun e => isSkip (e_outcome e)) (entries run2)
  /\ final run2 = final run1.
Proof.
  intros Hc Hai run1 Hne run2.
  pose proof (main_consistent Math_sin env requests featureTitles bugTitles file)
    as [Hcount Hdisk].
  fold run1 in Hcount, Hdisk. unfold persisted in Hdisk.
  assert (HF : boardAfter feature featureTitles (entries run1)
               = existingFeaturePosts (final run1)).
  { exact (loop_boards env _ (drop _ requests) feature _
                       (initialState featureTitles bugTitles file) Hne). }
  assert (HB : boardAfter bug bugTitles (entries run1)
               = existingBugPosts (final run1)).
  { exact (loop_boards env _ (drop _ requests) bug _
                       (initialState featureTitles bugTitles file) Hne). }
  set (mp := parseInt (MAX_POSTS (config env))).
  set (c0 := cursor (loadOrCreateImportState file)).
  set (c := cursor (importState (final run1))).
  assert (E2 : run2 = loop Math_sin env2 mp c (drop c requests) (final run1)).
  { assert (S2 : initialState (boardAfter feature featureTitles (entries run1))
                              (boardAfter bug bugTitles (entries run1))
                              (disk (final run1)) = final run1).
    { unfold initialState. rewrite HF, HB, Hdisk, <- Hcount.
      destruct (final run1); reflexivity. }
    unfold run2, main. rewrite S2, Hdisk, Hc. reflexivity. }
  assert (Quiet : exists es,
             loop Math_sin env mp c (drop c requests) (final run1)
             = {| final := final run1; entries := es; stop := stop run1 |}
             /\ imports es = 0%nat /\ noError es).
  { destruct (Nat.eq_0_gt_0_cases (imports (entries run1))) as [Hz | Hp].
    - pose proof (loop_quiet Math_sin _ _ _ _ _ Hz) as Hq.
      fold (main Math_sin env requests featureTitles bugTitles file) in Hq.
      fold run1 in Hq.
      exists (entries run1). split; [ | split; assumption ].
      unfold c. rewrite Hq.
      change (run1 = {| final := initialState featureTitles bugTitles file;
                        entries := entries run1; stop := stop run1 |}).
      rewrite <- Hq. apply run_eta.
    - destruct (loop_resume env mp (drop c0 requests) c0
                  (initialState featureTitles bugTitles file) Hp)
        as (Hlt & es & E & Hz & Hsub).
      cbn zeta in Hlt, E, Hsub.
      change (loop Math_sin env mp c0 (drop c0 requests)
                (initialState featureTitles bugTitles file))
        with run1 in Hlt, E, Hsub.
      change (cursor (importState (final run1))) with c in Hlt, E.
      exists es. split; [ | split; [ exact Hz | eapply noError_sub; eauto ] ].
      rewrite <- E. f_equal. rewrite drop_drop. f_equal. lia. }
  destruct Quiet as (es & E & Hz & Hn).
  assert (R : run2 = {| final := final run1; entries := es; stop := stop run1 |}).
  { rewrite E2, <- E. apply loop_replay; try assumption; rewrite E; assumption. }
  rewrite R. cbn [final entries].
  pose proof (loop_skips env mp (drop c requests) c (final run1)) as Hs.
  rewrite E in Hs. cbn [entries] in Hs.
  destruct (Hs Hz Hn) as [Hskip Hrem].
  repeat split; assumption.
Qed.

End Rerun.

Lemma second_run_imports_nothing_witness :
  let run1 := main Number.sinTaylor plainEnv threeRows boardWithThird ∅ None in
  config noVotersEnv = config plainEnv
  /\ (forall i, sameAI (script plainEnv i) (script noVotersEnv i))
  /\ noError (entries run1)
  /\ (e_outcome <$> entries run1) = [Imported; Imported; SkippedExisting]
  /\ imports (entries (main Number.sinTaylor noVotersEnv threeRows
                         (boardAfter feature boardWithThird (entries run1))
                         (boardAfter bug ∅ (entries run1))
                         (disk (final run1)))) = 0%nat.
Proof.
  cbv zeta.
  assert (Hc : config noVotersEnv = config plainEnv) by reflexivity.
  assert (Hai : forall i, sameAI (script plainEnv i) (script noVotersEnv i))
    by (intros i; repeat split).
  assert (Hne : noError (entries (main Number.sinTaylor plainEnv threeRows
                                     boardWithThird ∅ None))).
  { unfold noError. apply (bool_decide_unpack _). vm_compute. exact I. }
  pose proof (second_run_imports_nothing Number.sinTaylor plainEnv noVotersEnv
                threeRows boardWithThird ∅ None Hc Hai Hne) as H.
  cbv zeta in H. destruct H as [H _].
  split; [ exact Hc | ]. split; [ exact Hai | ]. split; [ exact Hne | ].
  split; [ vm_compute; reflexivity | exact H ].
Defined.

(** * Further properties of the loop *)

Section LoopFacts.
Variable Math_sin : float -> float.

Local Ltac turn env i request s :=
  rewrite loop_cons;
  let Hb := fresh "Hb" in
  let s' := fresh "s'" in
  let e' := fresh "e'" in
  pose proof (body_shape Math_sin env i request s) as Hb;
  destruct (capReached (importedPosts s) _) eqn:?;
  [ | destruct (body Math_sin env i request s) as [s' e'];
      cbn [fst snd final entries stop];
      inversion Hb; subst s' e'; clear Hb ].

Local Ltac not_skip :=
  match goal with
  | H : isSkip Imported |- _ => destruct H as [|[|]]; discriminate
  | H : isSkip Errored |- _ => destruct H as [|[|]]; discriminate
  end.

Lemma importedItemIds_cons e es :
  importedItemIds (e :: es)
  = if decide (e_outcome e = Imported) then e_itemId e :: importedItemIds es
    else importedItemIds es.
Proof.
  unfold importedItemIds. rewrite filter_cons.
  destruct (decide (e_outcome e = Imported)); reflexivity.
Qed.

Lemma loop_importedIds env mp rows :
  forall i s,
    importedIds (importState (final (loop Math_sin env mp i rows s)))
    = importedIds (importState s)
      ++ importedItemIds (entries (loop Math_sin env mp i rows s)).
Proof.
  induction rows as [|request rest IH]; intros i s.
  - cbn. rewrite app_nil_r. reflexivity.
  - turn env i request s.
    + cbn. rewrite app_nil_r. reflexivity.
    + rewrite IH, importedItemIds_cons. cbn [e_outcome].
      destruct (decide (o = Imported)) as [-> | _]; [ not_skip | reflexivity ].
    + rewrite IH, importedItemIds_cons. cbn [e_outcome e_itemId].
      destruct (decide (Imported = Imported)) as [_ | N]; [ | contradiction ].
      simpl. rewrite <- app_assoc. reflexivity.
    + rewrite IH, importedItemIds_cons. cbn [e_outcome].
      destruct (decide (Errored = Imported)) as [N | _]; [ discriminate | reflexivity ].
Qed.

(** X1: after a run the state file holds the ItemIds it held before,
    followed by the ItemIds of exactly the rows this run imported, in the
    order of the run; a skipped or failed row adds none. *)
Theorem importedIds_are_those_of_imported_rows
        (env : Env) (requests : list FeatureRequest)
        (featureTitles bugTitles : gset string) (file : option ImportState) :
  let run := main Math_sin env requests featureTitles bugTitles file in
  importedIds (persisted (final run))
  = importedIds (loadOrCreateImportState file) ++ importedItemIds (entries run)
  /\ length (importedItemIds (entries run)) = imports (entries run).
Proof.
  intros run.
  destruct (main_consistent Math_sin env requests featureTitles bugTitles file)
    as [_ Hp].
  fold run in Hp. rewrite Hp. split.
  - apply loop_importedIds.
  - unfold importedItemIds, imports. apply length_fmap.
Qed.

Lemma loop_importedIds_NoDup env mp rows :
  forall i s,
    NoDup (importedIds (importState s)) ->
    NoDup (importedIds (importState (final (loop Math_sin env mp i rows s)))).
Proof.
  induction rows as [|request rest IH]; intros i s Hs.
  - exact Hs.
  - turn env i request s; auto.
    apply IH. simpl. apply NoDup_app. split; [ exact Hs | ]. split.
    + intros x Hx [->|H]%elem_of_cons; [ | inversion H ].
      match goal with H : includes _ _ = false |- _ =>
        apply includes_false in H; contradiction end.
    + apply NoDup_singleton.
Qed.

(** X2: if no ItemId is recorded twice when a run starts, none is
    recorded twice when it ends: a row whose ItemId is recorded is never
    imported again, also when it comes twice in the same file. *)
Theorem importedIds_stay_distinct
        (env : Env) (requests : list FeatureRequest)
        (featureTitles bugTitles : gset string) (file : option ImportState) :
  NoDup (importedIds (loadOrCreateImportState file)) ->
  let run := main Math_sin env requests featureTitles bugTitles file in
  NoDup (importedIds (persisted (final run)))
  /\ NoDup (importedItemIds (entries run)).
Proof.
  intros Hs run.
  destruct (main_consistent Math_sin env requests featureTitles bugTitles file)
    as [_ Hp].
  fold run in Hp. rewrite Hp.
  assert (Hn : NoDup (importedIds (importState (final run)))).
  { apply loop_importedIds_NoDup. exact Hs. }
  split; [ exact Hn | ].
  unfold run, main in Hn. rewrite loop_importedIds in Hn.
  apply NoDup_app in Hn. tauto.
Qed.

Lemma loop_under_cap env (k : Z) rows :
  forall i s,
    Z.of_nat (importedPosts (final (loop Math_sin env (Some k) i rows s)))
    <= Z.max k (Z.of_nat (importedPosts s)).
Proof.
  induction rows as [|request rest IH]; intros i s.
  - cbn. lia.
  - rewrite loop_cons. cbn [capReached].
    destruct (Z.leb_spec k (Z.of_nat (importedPosts s))) as [Hle | Hlt].
    + cbn. lia.
    + pose proof (body_shape Math_sin env i request s) as Hb.
      destruct (body Math_sin env i request s) as [s' e].
      cbn [fst snd final]. inversion Hb; subst; clear Hb.
      * etransitivity; [ apply IH | lia ].
      * etransitivity; [ apply IH | simpl; lia ].
      * etransitivity; [ apply IH | lia ].
Qed.

(** X3: the cap is never overrun: with maxPosts = k the counter, and with
    it the number of recorded ItemIds, ends at most at k, or where it
    started when that was above k already; this needs nothing of the rows
    or of the services. *)
Theorem cap_is_never_overrun
        (env : Env) (requests : list FeatureRequest)
        (featureTitles bugTitles : gset string) (file : option ImportState)
        (k : Z) :
  parseInt (MAX_POSTS (config env)) = Some k ->
  let run := main Math_sin env requests featureTitles bugTitles file in
  let recorded := length (importedIds (loadOrCreateImportState file)) in
  Z.of_nat (length (importedIds (persisted (final run)))) <= Z.max k (Z.of_nat recorded)
  /\ Z.of_nat (imports (entries run)) <= Z.max 0 (k - Z.of_nat recorded).
Proof.
  intros Hk run recorded.
  destruct (main_consistent Math_sin env requests featureTitles bugTitles file)
    as [Hc Hp].
  fold run in Hc, Hp. rewrite Hp, <- Hc.
  assert (H : Z.of_nat (importedPosts (final run)) <= Z.max k (Z.of_nat recorded)).
  { unfold run, main. rewrite Hk. apply loop_under_cap. }
  split; [ exact H | ].
  unfold run, main in H. rewrite loop_counter in H.
  change (importedPosts (initialState featureTitles bugTitles file))
    with recorded in H.
  unfold run, main. lia.
Qed.

Lemma loop_no_cap env rows :
  forall i s,
    stop (loop Math_sin env None i rows s) = Exhausted
    /\ length (entries (loop Math_sin env None i rows s)) = length rows.
Proof.
  induction rows as [|request rest IH]; intros i s.
  - split; reflexivity.
  - rewrite loop_cons. cbn [capReached]. cbn [stop entries].
    destruct (IH (S i) (fst (body Math_sin env i request s))) as [-> E].
    split; [ reflexivity | ]. simpl. rewrite E. reflexivity.
Qed.

(** X4: when MAX_POSTS does not parse as a number (as the default
    "Infinity" does not) the comparison with NaN never holds: the loop
    never breaks and visits every row from the cursor to the end. *)
Theorem unparsable_cap_never_stops
        (env : Env) (requests : list FeatureRequest)
        (featureTitles bugTitles : gset string) (file : option ImportState) :
  parseInt (MAX_POSTS (config env)) = None ->
  let run := main Math_sin env requests featureTitles bugTitles file in
  stop run = Exhausted
  /\ length (entries run)
     = (length requests - cursor (loadOrCreateImportState file))%nat.
Proof.
  intros Hk run. unfold run, main. rewrite Hk.
  destruct (loop_no_cap env
              (drop (cursor (loadOrCreateImportState file)) requests)
              (cursor (loadOrCreateImportState file))
              (initialState featureTitles bugTitles file)) as [-> E].
  split; [ reflexivity | ]. rewrite E. apply length_drop.
Qed.

Local Ltac step_order E1 E2 :=
  rewrite !fmap_cons; cbn [length seq take e_index e_itemId];
  rewrite !fmap_cons, <- E1, <- E2; split; reflexivity.

Lemma loop_visits_in_order env mp rows :
  forall i s,
    e_index <$> entries (loop Math_sin env mp i rows s)
    = seq i (length (entries (loop Math_sin env mp i rows s)))
    /\ e_itemId <$> entries (loop Math_sin env mp i rows s)
       = generateItemId <$> take (length (entries (loop Math_sin env mp i rows s))) rows.
Proof.
  induction rows as [|request rest IH]; intros i s.
  - split; reflexivity.
  - turn env i request s.
    + split; reflexivity.
    + destruct (IH (S i) s) as [E1 E2]. step_order E1 E2.
    + destruct (IH (S i) (commit i (generateItemId request) enhanced cat s)) as [E1 E2].
      step_order E1 E2.
    + destruct (IH (S i) s) as [E1 E2]. step_order E1 E2.
Qed.

(** X5: a run visits the rows in the order of the file, starting at the
    cursor, one entry per row without gap or repetition, and the ItemId
    it works with is the one of that row; rows before the cursor are not
    visited at all. *)
Theorem rows_are_visited_in_file_order
        (env : Env) (requests : list FeatureRequest)
        (featureTitles bugTitles : gset string) (file : option ImportState) :
  let run := main Math_sin env requests featureTitles bugTitles file in
  let start := cursor (loadOrCreateImportState file) in
  e_index <$> entries run = seq start (length (entries run))
  /\ e_itemId <$> entries run
     = generateItemId <$> take (length (entries run)) (drop start requests)
  /\ (length (entries run) <= length requests - start)%nat.
Proof.
  intros run start. unfold run, main. fold start.
  set (r := loop Math_sin env (parseInt (MAX_POSTS (config env))) start
                 (drop start requests) (initialState featureTitles bugTitles file)).
  destruct (loop_visits_in_order env (parseInt (MAX_POSTS (config env)))
              (drop start requests) start
              (initialState featureTitles bugTitles file)) as [E1 E2].
  fold r in E1, E2.
  split; [ exact E1 | ]. split; [ exact E2 | ].
  apply (f_equal length) in E2. rewrite !length_fmap, length_take, length_drop in E2.
  lia.
Qed.

Lemma lastImported_cons e es :
  lastImported (e :: es)
  = match lastImported es with
    | Some e' => Some e'
    | None => if decide (e_outcome e = Imported) then Some e else None
    end.
Proof.
  unfold lastImported. rewrite filter_cons.
  destruct (decide (e_outcome e = Imported)); [ apply last_cons | ].
  destruct (last _); reflexivity.
Qed.

Lemma loop_cursor env mp rows :
  forall i s,
    cursor (importState (final (loop Math_sin env mp i rows s)))
    = match lastImported (entries (loop Math_sin env mp i rows s)) with
      | Some e => (e_index e + 1)%nat
      | None => cursor (importState s)
      end.
Proof.
  induction rows as [|request rest IH]; intros i s.
  - reflexivity.
  - turn env i request s.
    + reflexivity.
    + rewrite IH, lastImported_cons. cbn [e_outcome].
      destruct (lastImported _); [ reflexivity | ].
      destruct (decide (o = Imported)) as [-> | _]; [ not_skip | reflexivity ].
    + rewrite IH, lastImported_cons. cbn [e_outcome].
      destruct (lastImported _); [ reflexivity | ].
      destruct (decide (Imported = Imported)) as [_ | N]; [ | contradiction ].
      reflexivity.
    + rewrite IH, lastImported_cons. cbn [e_outcome].
      destruct (lastImported _); [ reflexivity | ].
      destruct (decide (Errored = Imported)) as [N | _]; [ discriminate | reflexivity ].
Qed.

Lemma loop_cursor_bounds env mp rows :
  forall i s,
    (cursor (importState s) <= i)%nat ->
    (cursor (importState s)
     <= cursor (importState (final (loop Math_sin env mp i rows s))))%nat
    /\ (cursor (importState (final (loop Math_sin env mp i rows s)))
        <= Nat.max (cursor (importState s)) (i + length rows))%nat.
Proof.
  induction rows as [|request rest IH]; intros i s Hc.
  - cbn. lia.
  - turn env i request s.
    + cbn. lia.
    + destruct (IH (S i) s ltac:(lia)). cbn [length]. lia.
    + destruct (IH (S i) (commit i (generateItemId request) enhanced cat s))
        as [H1' H2']; [ simpl; lia | ].
      cbn [length]. simpl in H1', H2'. lia.
    + destruct (IH (S i) s ltac:(lia)). cbn [length]. lia.
Qed.

(** X6: the persisted cursor after a run is the index of the last row
    the run imported plus one, and the cursor it started with when it
    imported none; it never moves back, and it stays within the file when
    it started there. *)
Theorem cursor_follows_last_import
        (env : Env) (requests : list FeatureRequest)
        (featureTitles bugTitles : gset string) (file : option ImportState) :
  let run := main Math_sin env requests featureTitles bugTitles file in
  let start := cursor (loadOrCreateImportState file) in
  cursor (persisted (final run))
  = match lastImported (entries run) with
    | Some e => (e_index e + 1)%nat
    | None => start
    end
  /\ (start <= cursor (persisted (final run)))%nat
  /\ (cursor (persisted (final run)) <= Nat.max start (length requests))%nat.
Proof.
  intros run start.
  destruct (main_consistent Math_sin env requests featureTitles bugTitles file)
    as [_ Hp].
  fold run in Hp. rewrite Hp. unfold run, main. fold start.
  split; [ apply loop_cursor | ].
  destruct (loop_cursor_bounds env (parseInt (MAX_POSTS (config env)))
              (drop start requests) start
              (initialState featureTitles bugTitles file)) as [H1 H2];
    [ reflexivity | ].
  change (cursor (importState (initialState featureTitles bugTitles file)))
    with start in H1, H2.
  rewrite length_drop in H2. split; [ exact H1 | lia ].
Qed.

End LoopFacts.

Lemma importedIds_stay_distinct_witness :
  NoDup (importedIds (loadOrCreateImportState firstRecorded))
  /\ NoDup (importedItemIds
              (entries (main Number.sinTaylor plainEnv threeRows ∅ ∅ firstRecorded))).
Proof.
  assert (H : NoDup (importedIds (loadOrCreateImportState firstRecorded)))
    by apply NoDup_singleton.
  split; [ exact H | ].
  pose proof (importedIds_stay_distinct Number.sinTaylor plainEnv threeRows ∅ ∅
                firstRecorded H) as W.
  cbv zeta in W. exact (proj2 W).
Defined.

Lemma cap_is_never_overrun_witness :
  parseInt (MAX_POSTS (config (cappedEnv "2"))) = Some 2%Z
  /\ (Z.of_nat (imports (entries (main Number.sinTaylor (cappedEnv "2") tenRows ∅ ∅ None)))
      <= Z.max 0 (2 - Z.of_nat (length (importedIds (loadOrCreateImportState None)))))%Z.
Proof.
  assert (H : parseInt (MAX_POSTS (config (cappedEnv "2"))) = Some 2%Z) by reflexivity.
  split; [ exact H | ].
  pose proof (cap_is_never_overrun Number.sinTaylor (cappedEnv "2") tenRows ∅ ∅ None 2 H)
    as W.
  cbv zeta in W. exact (proj2 W).
Defined.

Lemma unparsable_cap_never_stops_witness :
  parseInt (MAX_POSTS (config plainEnv)) = None
  /\ stop (main Number.sinTaylor plainEnv tenRows ∅ ∅ None) = Exhausted.
Proof.
  assert (H : parseInt (MAX_POSTS (config plainEnv)) = None) by reflexivity.
  split; [ exact H | ].
  pose proof (unparsable_cap_never_stops Number.sinTaylor plainEnv tenRows ∅ ∅ None H)
    as W.
  cbv zeta in W. exact (proj1 W).
Defined.

(** * A failed row *)

Section FailedRows.
Variable Math_sin : float -> float.

Local Ltac turn env i request s :=
  rewrite loop_cons;
  let Hb := fresh "Hb" in
  let s' := fresh "s'" in
  let e' := fresh "e'" in
  pose proof (body_shape Math_sin env i request s) as Hb;
  destruct (capReached (importedPosts s) _) eqn:?;
  [ | destruct (body Math_sin env i request s) as [s' e'];
      cbn [fst snd final entries stop];
      inversion Hb; subst s' e'; clear Hb ].





End FailedRows.




(** * Further properties of a row *)

Section RowFacts.
Variable Math_sin : float -> float.

Local Ltac expose :=
  unfold tryBlock, isValidRequest, enhanceRequest, categorizeRequest,
    createOrUpdateUser, createPost, bind, await, ret.

Local Ltac case_step :=
  match goal with
  | |- context [String.eqb ?x "true"] => destruct (String.eqb x "true") eqn:?
  | |- context [a_valid ?a] => destruct (a_valid a) eqn:?
  | |- context [a_enhance ?a] => destruct (a_enhance a) eqn:?
  | |- context [a_category ?a] => destruct (a_category a) eqn:?
  | |- context [validOfAnswer ?v] => destruct (validOfAnswer v) eqn:?
  | |- context [bool_decide ?P] => destruct (bool_decide P) eqn:?
  | |- context [a_user ?a] => destruct (a_user a) eqn:?
  | |- context [a_post ?a] => destruct (a_post a) eqn:?
  | |- context [addVotes ?f ?a ?p ?c ?u] =>
      let tv := fresh "tv" in
      destruct (addVotes f a p c u) as [[[]|] tv] eqn:?
  end.

(** Every way through the [try] block, with the value it ends in. *)
Local Ltac try_cases env a request s :=
  let m := fresh "m" in
  let Em := fresh "Em" in
  remember (tryBlock Math_sin env a request s) as m eqn:Em;
  revert Em; expose; repeat (simpl; case_step);
  simpl; intros ->; cbn [fst snd]; rewrite ?app_nil_r.

Lemma inStageOrder_step ev next rest :
  inStageOrder (ev :: next :: rest)
  = ((stage (ev_call ev) <? stage (ev_call next))%nat
     || ((stage (ev_call ev) =? 5)%nat && (stage (ev_call next) =? 5)%nat))
    && inStageOrder (next :: rest).
Proof. reflexivity. Qed.

Lemma onlyLastMayThrow_step ev next rest :
  onlyLastMayThrow (ev :: next :: rest)
  = ev_resolved ev && onlyLastMayThrow (next :: rest).
Proof. reflexivity. Qed.

Lemma inStageOrder_up ev next rest :
  (stage (ev_call ev) < stage (ev_call next))%nat ->
  inStageOrder (next :: rest) = true ->
  inStageOrder (ev :: next :: rest) = true.
Proof.
  intros H%Nat.ltb_lt E. rewrite inStageOrder_step, H, E. reflexivity.
Qed.

Lemma inStageOrder_votes ev tv :
  (stage (ev_call ev) <= 5)%nat ->
  Forall (fun v => stage (ev_call v) = 5%nat) tv ->
  inStageOrder (ev :: tv) = true.
Proof.
  intros Hev Hv. revert ev Hev.
  induction Hv as [|v tv Hs _ IH]; intros ev Hev; [ reflexivity | ].
  rewrite inStageOrder_step, IH by lia. rewrite Hs.
  destruct (Nat.ltb_spec (stage (ev_call ev)) 5) as [_ | Hge]; [ reflexivity | ].
  replace (stage (ev_call ev)) with 5%nat by lia. reflexivity.
Qed.

Lemma onlyLastMayThrow_resolved ev rest :
  ev_resolved ev = true ->
  onlyLastMayThrow rest = true ->
  onlyLastMayThrow (ev :: rest) = true.
Proof.
  intros Hr E. destruct rest; [ reflexivity | ].
  rewrite onlyLastMayThrow_step, Hr, E. reflexivity.
Qed.

(** The calls of the vote loop are votes; one that throws ends the loop. *)
Lemma castVotes_trace votes postID voters :
  forall k,
    Forall (fun v => stage (ev_call v) = 5%nat) (snd (castVotes votes postID k voters))
    /\ onlyLastMayThrow (snd (castVotes votes postID k voters)) = true.
Proof.
  induction voters as [|[v|] voters IH]; intros k; try (split; [ constructor | reflexivity ]).
  cbn [castVotes]. rewrite await_eq.
  destruct (votes k).
  - rewrite bind_ok. cbn [snd app]. destruct (IH (S k)) as [H1 H2].
    split; [ constructor; [ reflexivity | exact H1 ] | ].
    apply onlyLastMayThrow_resolved; [ reflexivity | exact H2 ].
  - split; [ repeat constructor | reflexivity ].
Qed.

Lemma addVotes_trace a postID count users :
  Forall (fun v => stage (ev_call v) = 5%nat)
         (snd (addVotes Math_sin a postID count users))
  /\ onlyLastMayThrow (snd (addVotes Math_sin a postID count users)) = true.
Proof.
  unfold addVotes. destruct postID; [ apply castVotes_trace | ].
  split; [ constructor | reflexivity ].
Qed.

Local Ltac votes_facts :=
  try match goal with
      | H : addVotes ?f ?a ?p ?c ?u = (_, ?tv) |- _ =>
          let V := fresh "V" in
          pose proof (addVotes_trace a p c u) as V;
          rewrite H in V; cbn [fst snd] in V
      end.

Lemma tryBlock_trace env a request s :
  inStageOrder (snd (tryBlock Math_sin env a request s)) = true
  /\ onlyLastMayThrow (snd (tryBlock Math_sin env a request s)) = true.
Proof.
  try_cases env a request s.
  all: votes_facts.
  all: split;
    [ repeat (apply inStageOrder_up; [ cbn; lia | ]);
      first [ reflexivity | apply inStageOrder_votes; [ cbn; lia | tauto ] ]
    | repeat (apply onlyLastMayThrow_resolved; [ reflexivity | ]);
      first [ reflexivity | tauto ] ].
Qed.

(** X7: the calls of a row come in one fixed order: validity, then
    enhancement, then category, then the requester's user, then the post,
    then the votes; each stage is called at most once, only votes repeat;
    and a call is made only after every earlier call of the row resolved,
    so a call that throws is the last of its row. *)
Theorem row_calls_come_in_stage_order
        (env : Env) (i : nat) (request : FeatureRequest) (s : LoopState) :
  let e := snd (body Math_sin env i request s) in
  inStageOrder (e_events e) = true /\ onlyLastMayThrow (e_events e) = true.
Proof.
  cbn zeta. unfold body.
  destruct (includes _ _); [ split; reflexivity | ].
  pose proof (tryBlock_trace env (script env i) request s) as H.
  destruct (tryBlock Math_sin env (script env i) request s) as [[[]|] t];
    exact H.
Qed.

Local Ltac use_cases :=
  repeat match goal with
         | H : ?l = _ |- context [?l] => rewrite H
         end.

Lemma tryBlock_remote env a request s :
  List.filter isRemoteEvent (snd (tryBlock Math_sin env a request s)) <> []
  <-> passesFilter (config env) a = true
      /\ exists enhanced cat,
           decidedRequest (config env) a request = Some enhanced
           /\ decidedCategory a = Some cat
           /\ title enhanced ∉ existingPosts cat s.
Proof.
  try_cases env a request s.
  all: unfold passesFilter, decidedRequest, decidedCategory; use_cases.
  all: split;
    [ intros N;
      first [ exfalso; apply N; reflexivity
            | split; [ reflexivity | ];
              eexists _, _; split; [ reflexivity | ]; split; [ reflexivity | ];
              match goal with
              | H : bool_decide _ = false |- _ => exact (bool_decide_eq_false_1 _ H)
              end ]
    | intros (Hf & enhanced & cat & He & Hc & Hn);
      first [ discriminate
            | injection He as <-; injection Hc as <-;
              match goal with
              | H : bool_decide _ = true |- _ =>
                  apply bool_decide_eq_true in H; exfalso; exact (Hn H)
              end
            | simpl; discriminate ] ].
Qed.

(** X8: a row sends something to the board (a user creation, a post
    creation or a vote) exactly when its ItemId is not recorded, the
    validity filter (if switched on) answered and accepted it, the
    enhancer (if switched on) and the categorizer answered, and the title
    to post is not in the duplicate set of the decided category; in every
    other case, a thrown AI call included, the board is not touched. *)
Theorem board_is_touched_iff_row_clears_the_gates
        (env : Env) (i : nat) (request : FeatureRequest) (s : LoopState) :
  List.filter isRemoteEvent (e_events (snd (body Math_sin env i request s))) <> []
  <-> reachesBoard env i request s.
Proof.
  unfold reachesBoard, body.
  destruct (includes _ _).
  - split; [ intros N; exfalso; apply N; reflexivity | intros [? _]; discriminate ].
  - pose proof (tryBlock_remote env (script env i) request s) as H.
    destruct (tryBlock Math_sin env (script env i) request s) as [[[]|] t];
      cbn [snd e_events] in *; rewrite H; tauto.
Qed.

Lemma tryBlock_published env a request s enhanced cat t :
  tryBlock Math_sin env a request s = (Ok (Published enhanced cat), t) ->
  title enhanced ∉ existingPosts cat s.
Proof.
  expose. repeat (simpl; case_step).
  all: simpl; intros E; try discriminate E; injection E as <- <- _.
  all: match goal with
       | H : bool_decide _ = false |- _ => exact (bool_decide_eq_false_1 _ H)
       end.
Qed.

(** A turn of the loop either leaves the state alone, or commits a post
    whose title was not in the set of its category. *)
Lemma body_cases env i request s :
  (fst (body Math_sin env i request s) = s
   /\ e_outcome (snd (body Math_sin env i request s)) <> Imported
   /\ (e_outcome (snd (body Math_sin env i request s)) <> Errored ->
       forall board,
         omap (postedOn board) (e_events (snd (body Math_sin env i request s))) = []))
  \/ exists enhanced cat,
       fst (body Math_sin env i request s)
       = commit i (generateItemId request) enhanced cat s
       /\ e_outcome (snd (body Math_sin env i request s)) = Imported
       /\ (forall board,
             omap (postedOn board) (e_events (snd (body Math_sin env i request s)))
             = if decide (cat = board) then [title enhanced] else [])
       /\ title enhanced ∉ existingPosts cat s.
Proof.
  unfold body. destruct (includes _ _).
  { left. split; [ reflexivity | ]. split; [ discriminate | reflexivity ]. }
  pose proof (tryBlock_shape Math_sin env (script env i) request s) as Hs.
  pose proof (tryBlock_published env (script env i) request s) as Hp.
  destruct (tryBlock Math_sin env (script env i) request s) as [[[| |enhanced cat]|] t];
    cbn [fst snd e_outcome e_events].
  - left. inversion Hs as [? Hai _ | | |]; subst.
    split; [ reflexivity | ]. split; [ discriminate | ].
    intros _. apply (ai_events_not_remote _ Hai).
  - left. inversion Hs as [| ? Hai _ | |]; subst.
    split; [ reflexivity | ]. split; [ discriminate | ].
    intros _. apply (ai_events_not_remote _ Hai).
  - right. exists enhanced, cat. inversion Hs as [| | ? ? ? Hb |]; subst.
    split; [ reflexivity | ]. split; [ reflexivity | ].
    split; [ exact Hb | apply (Hp _ _ _ eq_refl) ].
  - left. split; [ reflexivity | ]. split; [ discriminate | ].
    intros N. contradiction.
Qed.

Lemma postedTitles_cons board e es :
  postedTitles board (e :: es)
  = omap (postedOn board) (e_events e) ++ postedTitles board es.
Proof. unfold postedTitles. rewrite allEvents_cons, omap_app. reflexivity. Qed.

Lemma existingPosts_commit board i itemId enhanced cat s :
  existingPosts board s ⊆ existingPosts board (commit i itemId enhanced cat s)
  /\ title enhanced ∈ existingPosts cat (commit i itemId enhanced cat s).
Proof. destruct board, cat; simpl; set_solver. Qed.

Lemma loop_posts_fresh env mp rows board :
  forall i s,
    noError (entries (loop Math_sin env mp i rows s)) ->
    NoDup (postedTitles board (entries (loop Math_sin env mp i rows s)))
    /\ forall t, t ∈ postedTitles board (entries (loop Math_sin env mp i rows s)) ->
                 t ∉ existingPosts board s.
Proof.
  induction rows as [|request rest IH]; intros i s.
  { intros _. split; [ constructor | intros t H; inversion H ]. }
  rewrite loop_cons. destruct (capReached _ _).
  { intros _. split; [ constructor | intros t H; inversion H ]. }
  cbn [entries]. intros [Hne Hn]%noError_cons. rewrite postedTitles_cons.
  destruct (body_cases env i request s)
    as [(Hs & _ & Hq) | (enhanced & cat & Hs & _ & Hp & Hf)].
  - rewrite (Hq Hne board). rewrite Hs in *. apply IH. exact Hn.
  - rewrite Hp. rewrite Hs in *. destruct (IH _ _ Hn) as [IH1 IH2].
    destruct (existingPosts_commit board i (generateItemId request) enhanced cat s)
      as [Hsub Hin].
    destruct (decide (cat = board)) as [<- | _]; simpl.
    + split.
      * apply NoDup_cons. split; [ | exact IH1 ].
        intros Ht. exact (IH2 _ Ht Hin).
      * intros t [-> | Ht]%elem_of_cons; [ exact Hf | ].
        intros Hx. apply (IH2 _ Ht). apply Hsub. exact Hx.
    + split; [ exact IH1 | ].
      intros t Ht Hx. apply (IH2 _ Ht). apply Hsub. exact Hx.
Qed.

Lemma votes_sentByCategory cfg tv :
  Forall (fun v => stage (ev_call v) = 5%nat) tv -> Forall (sentByCategory cfg) tv.
Proof.
  induction 1 as [|[c b] tv Hc _ IH]; constructor; [ | exact IH ].
  destruct c; try discriminate Hc. exact I.
Qed.

Lemma tryBlock_boards env a request s :
  Forall (sentByCategory (config env)) (snd (tryBlock Math_sin env a request s)).
Proof.
  try_cases env a request s.
  all: votes_facts.
  all: repeat (constructor; [ first [ exact I | reflexivity ] | ]).
  all: first [ constructor | apply votes_sentByCategory; tauto ].
Qed.

Lemma loop_boards_sent env mp rows :
  forall i s,
    Forall (sentByCategory (config env))
           (allEvents (entries (loop Math_sin env mp i rows s))).
Proof.
  induction rows as [|request rest IH]; intros i s; [ constructor | ].
  rewrite loop_cons. destruct (capReached _ _); [ constructor | ].
  cbn [entries]. rewrite allEvents_cons. apply Forall_app. split; [ | apply IH ].
  unfold body. destruct (includes _ _); [ constructor | ].
  pose proof (tryBlock_boards env (script env i) request s) as H.
  destruct (tryBlock Math_sin env (script env i) request s) as [[[]|] t]; exact H.
Qed.

(** With two different board ids, what went to a board is what was
    posted under its category. *)
Lemma titlesOn_category cfg b t :
  FEATURE_BOARD_ID cfg <> BUG_BOARD_ID cfg ->
  Forall (sentByCategory cfg) t ->
  omap (sentTo b) t
  = if decide (b = FEATURE_BOARD_ID cfg) then omap (postedOn feature) t
    else if decide (b = BUG_BOARD_ID cfg) then omap (postedOn bug) t
    else [].
Proof.
  intros Hd. induction 1 as [|[c r] t Hc _ IH].
  - repeat destruct (decide _); reflexivity.
  - cbn [omap list_omap]. rewrite IH. clear IH.
    destruct c as [| | | |id cat author title details createdAt|];
      try (repeat destruct (decide _); reflexivity).
    destruct r; [ | repeat destruct (decide _); reflexivity ].
    unfold sentByCategory in Hc. cbn [ev_call] in Hc. subst id.
    cbn [sentTo postedOn].
    destruct cat; cbn [boardID];
      repeat (destruct (decide _); try congruence); reflexivity.
Qed.

(** X9: in a run in which no row failed, no title is posted twice under
    the same category, and none under a category whose duplicate set
    held it when the run started; when the feature board and the bug
    board have different ids, this means that no title is put twice on
    the same board and none on a board that listed it when the run
    started. *)
Theorem no_title_posted_twice_without_errors
        (env : Env) (requests : list FeatureRequest)
        (featureTitles bugTitles : gset string) (file : option ImportState) :
  let run := main Math_sin env requests featureTitles bugTitles file in
  noError (entries run) ->
  (forall cat,
     NoDup (postedTitles cat (entries run))
     /\ forall t, t ∈ postedTitles cat (entries run) ->
                  t ∉ match cat with feature => featureTitles | bug => bugTitles end)
  /\ (FEATURE_BOARD_ID (config env) <> BUG_BOARD_ID (config env) ->
      (forall b, NoDup (titlesOn b (entries run)))
      /\ (forall t, t ∈ titlesOn (FEATURE_BOARD_ID (config env)) (entries run) ->
                    t ∉ featureTitles)
      /\ (forall t, t ∈ titlesOn (BUG_BOARD_ID (config env)) (entries run) ->
                    t ∉ bugTitles)).
Proof.
  intros run Hne.
  assert (Hcat : forall cat,
             NoDup (postedTitles cat (entries run))
             /\ forall t, t ∈ postedTitles cat (entries run) ->
                          t ∉ match cat with
                              | feature => featureTitles | bug => bugTitles end).
  { intros cat. destruct (loop_posts_fresh env _ _ cat _ _ Hne) as [H1 H2].
    split; [ exact H1 | ].
    intros t Ht. specialize (H2 t Ht). destruct cat; exact H2. }
  split; [ exact Hcat | ].
  intros Hd.
  assert (Hon : forall b,
             titlesOn b (entries run)
             = if decide (b = FEATURE_BOARD_ID (config env))
               then postedTitles feature (entries run)
               else if decide (b = BUG_BOARD_ID (config env))
                    then postedTitles bug (entries run)
                    else []).
  { intros b. unfold titlesOn, postedTitles.
    apply titlesOn_category; [ exact Hd | apply loop_boards_sent ]. }
  split; [ | split ].
  - intros b. rewrite Hon.
    destruct (decide _); [ apply (Hcat feature) | ].
    destruct (decide _); [ apply (Hcat bug) | constructor ].
  - intros t. rewrite Hon.
    destruct (decide _) as [_ | N]; [ apply (Hcat feature) | contradiction ].
  - intros t. rewrite Hon.
    destruct (decide _) as [E | _]; [ symmetry in E; contradiction | ].
    destruct (decide _) as [_ | N]; [ apply (Hcat bug) | contradiction ].
Qed.

Lemma tryBlock_vote_failure env a request s enhanced cat author postID :
  passesFilter (config env) a = true ->
  decidedRequest (config env) a request = Some enhanced ->
  decidedCategory a = Some cat ->
  title enhanced ∉ existingPosts cat s ->
  a_user a = Ok author ->
  a_post a = Ok postID ->
  fst (addVotes Math_sin a postID (parseInt (Total_Likes request)) (fakeUsers env))
  = Throw ->
  fst (tryBlock Math_sin env a request s) = Throw
  /\ Event (CreatePost (boardID (config env) cat) cat author (title enhanced)
                       (description enhanced) (created_at request)) true
     ∈ snd (tryBlock Math_sin env a request s).
Proof.
  unfold passesFilter, decidedRequest, decidedCategory.
  intros Hf He Hc Hn Hu Hp Hv.
  try_cases env a request s.
  all: repeat match goal with
              | H : ?l = _, H' : context [?l] |- _ => rewrite H in H'
              end.
  all: simplify_eq.
  all: try match goal with
           | H : bool_decide _ = true |- _ =>
               apply bool_decide_eq_true in H; exfalso; exact (Hn H)
           end.
  all: try match goal with
           | H : addVotes _ _ _ _ _ = _ |- _ => rewrite H in Hv; discriminate Hv
           end.
  all: split; [ reflexivity | ].
  all: repeat first [ apply list_elem_of_here | apply list_elem_of_further ].
Qed.

(** X10: when the post of a row was created and a vote on it then
    failed, the row ends in the catch block with the state as it was (the
    ItemId not recorded, the title not added to the duplicate set), yet
    the post is on the board: the trace holds its resolved creation. *)
Theorem failed_vote_leaves_post_unrecorded
        (env : Env) (i : nat) (request enhanced : FeatureRequest) (cat : category)
        (author postID : option string) (s : LoopState) :
  includes (generateItemId request) (importedIds (importState s)) = false ->
  passesFilter (config env) (script env i) = true ->
  decidedRequest (config env) (script env i) request = Some enhanced ->
  decidedCategory (script env i) = Some cat ->
  title enhanced ∉ existingPosts cat s ->
  a_user (script env i) = Ok author ->
  a_post (script env i) = Ok postID ->
  fst (addVotes Math_sin (script env i) postID (parseInt (Total_Likes request))
                (fakeUsers env)) = Throw ->
  let '(s', e) := body Math_sin env i request s in
  s' = s
  /\ e_outcome e = Errored
  /\ Event (CreatePost (boardID (config env) cat) cat author (title enhanced)
                       (description enhanced) (created_at request)) true ∈ e_events e.
Proof.
  intros Hl Hf He Hc Hn Hu Hp Hv. unfold body. rewrite Hl.
  destruct (tryBlock_vote_failure env (script env i) request s enhanced cat
              author postID Hf He Hc Hn Hu Hp Hv) as [H1 H2].
  destruct (tryBlock Math_sin env (script env i) request s) as [[v|] t];
    [ discriminate H1 | ].
  auto.
Qed.


Lemma castVotes_ok votes postID (voters : list FakeUser) :
  forall k t,
    castVotes votes postID k (Some <$> voters) = (Ok tt, t) ->
    t = voteEvent postID <$> voters.
Proof.
  induction voters as [|v voters IH]; intros k t.
  - intros [= <-]. reflexivity.
  - cbn [fmap list_fmap castVotes]. rewrite await_eq.
    fold (@fmap list _ _ _ (@Some FakeUser) voters).
    destruct (votes k) as [[]|]; [ | discriminate ].
    rewrite bind_ok.
    destruct (castVotes votes postID (S k) (Some <$> voters)) as [[[]|] t'] eqn:Ec;
      [ | discriminate ].
    intros [= <-]. rewrite (IH _ _ Ec). reflexivity.
Qed.

Lemma filter_voteEvents postID (voters : list FakeUser) :
  List.filter isVoteEvent (voteEvent postID <$> voters) = voteEvent postID <$> voters.
Proof.
  induction voters as [|v voters IH]; [ reflexivity | ].
  cbn [fmap list_fmap List.filter]. cbn [isVoteEvent voteEvent ev_call].
  f_equal. exact IH.
Qed.

Lemma tryBlock_votes env a request s enhanced cat t postID (n : nat)
      (order : list FakeUser) :
  tryBlock Math_sin env a request s = (Ok (Published enhanced cat), t) ->
  a_post a = Ok (Some postID) ->
  parseInt (Total_Likes request) = Some (Z.of_nat n) ->
  elems (shuffleArray Math_sin (ofList (fakeUsers env)) postID) = Some <$> order ->
  List.filter isVoteEvent t = voteEvent postID <$> take n order.
Proof.
  intros H Hp Hn E. revert H.
  expose. repeat (simpl; case_step).
  all: simpl; intros H; try discriminate H; injection H as _ _ <-.
  all: injection Hp as ->.
  all: match goal with
       | Hv : addVotes _ _ _ _ _ = _ |- _ =>
           rewrite Hn in Hv; unfold addVotes in Hv;
           rewrite slice0_count, E, <- fmap_take in Hv;
           apply castVotes_ok in Hv; subst
       end.
  all: rewrite ?app_nil_r; cbn [List.filter isVoteEvent ev_call];
    apply filter_voteEvents.
Qed.

(** X26: an imported row has got its votes: when the post was given the
    id [postID] and the like count of the row is [n], the votes cast for
    the row are exactly the votes of the first [n] voters of the shuffled
    pool for that post, one each, min(n, pool size) in all and no voter
    twice; every vote call resolved, else the row would not be imported.
    The exchanges of the shuffle are taken to fall inside the array. *)
Theorem imported_row_has_its_votes
        (env : Env) (i : nat) (request : FeatureRequest) (s : LoopState)
        (postID : string) (n : nat) :
  e_outcome (snd (body Math_sin env i request s)) = Imported ->
  a_post (script env i) = Ok (Some postID) ->
  parseInt (Total_Likes request) = Some (Z.of_nat n) ->
  shuffleInRange Math_sin (length (fakeUsers env)) postID = true ->
  exists order : list FakeUser,
    order ≡ₚ fakeUsers env
    /\ List.filter isVoteEvent (e_events (snd (body Math_sin env i request s)))
       = voteEvent postID <$> take n order
    /\ length (take n order) = Nat.min n (length (fakeUsers env))
    /\ (NoDup (fakeUsers env) -> NoDup (take n order)).
Proof.
  intros Ho Hp Hn Hr.
  destruct (shuffleArray_permutation Math_sin (fakeUsers env) postID Hr)
    as (order & E & P).
  exists order. split; [ exact P | ].
  split; [ | split ].
  - revert Ho. unfold body. destruct (includes _ _); [ discriminate | ].
    destruct (tryBlock Math_sin env (script env i) request s)
      as [[[| |enhanced cat]|] t] eqn:Et; try discriminate.
    intros _. cbn [snd e_events].
    apply (tryBlock_votes env _ request s enhanced cat t postID n order Et Hp Hn).
    rewrite E. reflexivity.
  - rewrite length_take, (Permutation_length P). reflexivity.
  - intros Hnd. rewrite <- P in Hnd.
    rewrite <- (take_drop n order) in Hnd.
    apply NoDup_app in Hnd. tauto.
Qed.

Lemma filter_creation_votes tv :
  Forall (fun v => stage (ev_call v) = 5%nat) tv -> List.filter isCreation tv = [].
Proof.
  induction 1 as [|[c b] tv Hc _ IH]; [ reflexivity | ].
  cbn [List.filter]. rewrite IH.
  destruct c; try discriminate Hc. reflexivity.
Qed.

Lemma tryBlock_post env a request s enhanced cat t :
  tryBlock Math_sin env a request s = (Ok (Published enhanced cat), t) ->
  passesFilter (config env) a = true
  /\ decidedRequest (config env) a request = Some enhanced
  /\ decidedCategory a = Some cat
  /\ exists author postID,
       a_user a = Ok author
       /\ a_post a = Ok postID
       /\ List.filter isCreation t
          = [Event (CreateUser (Requested_By request)) true;
             Event (CreatePost (boardID (config env) cat) cat author (title enhanced)
                               (description enhanced) (created_at request)) true].
Proof.
  unfold passesFilter, decidedRequest, decidedCategory.
  expose. repeat (simpl; case_step).
  all: simpl; intros H; try discriminate H; injection H as <- <- <-.
  all: votes_facts; use_cases.
  all: split; [ reflexivity | ]; split; [ reflexivity | ]; split; [ reflexivity | ].
  all: eexists _, _; split; [ reflexivity | ]; split; [ reflexivity | ].
  all: rewrite ?app_nil_r; cbn [List.filter isCreation isRemoteEvent isRemoteCall
                                  isAiCall isVoteEvent ev_call negb andb].
  all: rewrite filter_creation_votes by tauto; reflexivity.
Qed.

(** X27: an imported row made exactly one user call and one post call:
    the user is the one of the Requested By email of the row, and the
    post goes to the board of the decided category, under the id the
    user call answered, with the title and the description of the
    (possibly enhanced) record and the creation date of the row; the
    state after the row is the commit of that record. *)
Theorem imported_row_posts_once_as_requester
        (env : Env) (i : nat) (request : FeatureRequest) (s : LoopState) :
  e_outcome (snd (body Math_sin env i request s)) = Imported ->
  exists enhanced cat author postID,
    decidedRequest (config env) (script env i) request = Some enhanced
    /\ decidedCategory (script env i) = Some cat
    /\ a_user (script env i) = Ok author
    /\ a_post (script env i) = Ok postID
    /\ List.filter isCreation (e_events (snd (body Math_sin env i request s)))
       = [Event (CreateUser (Requested_By request)) true;
          Event (CreatePost (boardID (config env) cat) cat author (title enhanced)
                            (description enhanced) (created_at request)) true]
    /\ fst (body Math_sin env i request s)
       = commit i (generateItemId request) enhanced cat s.
Proof.
  unfold body. destruct (includes _ _); [ discriminate | ].
  destruct (tryBlock Math_sin env (script env i) request s)
    as [[[| |enhanced cat]|] t] eqn:Et; try discriminate.
  intros _. cbn [fst snd e_events].
  destruct (tryBlock_post env _ request s enhanced cat t Et)
    as (_ & He & Hc & author & postID & Hu & Hp & Hf).
  exists enhanced, cat, author, postID. repeat split; assumption.
Qed.

End RowFacts.

Lemma no_title_posted_twice_without_errors_witness :
  noError (entries (main Number.sinTaylor plainEnv threeRows boardWithThird ∅ None))
  /\ FEATURE_BOARD_ID (config plainEnv) <> BUG_BOARD_ID (config plainEnv)
  /\ NoDup (titlesOn "board-features"
              (entries (main Number.sinTaylor plainEnv threeRows boardWithThird ∅ None))).
Proof.
  assert (H : noError (entries (main Number.sinTaylor plainEnv threeRows
                                     boardWithThird ∅ None))).
  { unfold noError. apply (bool_decide_unpack _). vm_compute. exact I. }
  assert (Hd : FEATURE_BOARD_ID (config plainEnv) <> BUG_BOARD_ID (config plainEnv))
    by discriminate.
  split; [ exact H | ]. split; [ exact Hd | ].
  pose proof (no_title_posted_twice_without_errors Number.sinTaylor plainEnv threeRows
                boardWithThird ∅ None) as W.
  cbv zeta in W. destruct (W H) as [_ Wb]. destruct (Wb Hd) as [Wn _].
  exact (Wn "board-features"%string).
Defined.

(** With one id for both categories the two duplicate sets still stand
    apart: a title filed once as a feature and once as a bug goes to the
    one board twice, in a run without a failed row. *)
Example one_board_for_both_categories :
  let run := main Number.sinTaylor oneBoardEnv sameTitleRows ∅ ∅ None in
  e_outcome <$> entries run = [Imported; Imported]
  /\ titlesOn "board" (entries run) = ["request 0"; "request 0"]%string.
Proof. vm_compute. split; reflexivity. Qed.

Lemma failed_vote_leaves_post_unrecorded_witness :
  fst (addVotes Number.sinTaylor (script voteFailsEnv 0) (Some "p1"%string)
                (parseInt (Total_Likes sampleRequest)) (fakeUsers voteFailsEnv)) = Throw
  /\ e_outcome (snd (body Number.sinTaylor voteFailsEnv 0 sampleRequest
                          (stateWith [] 0 ∅))) = Errored.
Proof.
  assert (Hv : fst (addVotes Number.sinTaylor (script voteFailsEnv 0) (Some "p1"%string)
                             (parseInt (Total_Likes sampleRequest))
                             (fakeUsers voteFailsEnv)) = Throw)
    by (vm_compute; reflexivity).
  split; [ exact Hv | ].
  assert (Hn : title (enhancedRecord (Some sampleAnswer) sampleRequest)
               ∉ existingPosts feature (stateWith [] 0 ∅))
    by apply not_elem_of_empty.
  pose proof (failed_vote_leaves_post_unrecorded Number.sinTaylor voteFailsEnv 0
                sampleRequest (enhancedRecord (Some sampleAnswer) sampleRequest) feature
                (Some "user-1"%string) (Some "p1"%string) (stateWith [] 0 ∅)
                eq_refl eq_refl eq_refl eq_refl Hn eq_refl eq_refl Hv) as W.
  destruct (body _ _ _ _ _) as [s' e]. exact (proj1 (proj2 W)).
Defined.

Lemma imported_row_has_its_votes_witness :
  e_outcome (snd (body Number.sinTaylor plainEnv 0 sampleRequest (stateWith [] 0 ∅)))
  = Imported
  /\ exists order : list FakeUser,
       order ≡ₚ fakeUsers plainEnv
       /\ List.filter isVoteEvent
            (e_events (snd (body Number.sinTaylor plainEnv 0 sampleRequest
                                 (stateWith [] 0 ∅))))
          = voteEvent "p1" <$> take 3 order.
Proof.
  assert (H1 : e_outcome (snd (body Number.sinTaylor plainEnv 0 sampleRequest
                                    (stateWith [] 0 ∅))) = Imported)
    by (vm_compute; reflexivity).
  assert (H2 : shuffleInRange Number.sinTaylor (length (fakeUsers plainEnv)) "p1" = true)
    by (vm_compute; reflexivity).
  split; [ exact H1 | ].
  destruct (imported_row_has_its_votes Number.sinTaylor plainEnv 0 sampleRequest
              (stateWith [] 0 ∅) "p1" 3 H1 eq_refl eq_refl H2)
    as (order & P & E & _).
  exists order. split; [ exact P | exact E ].
Defined.

Lemma imported_row_posts_once_as_requester_witness :
  e_outcome (snd (body Number.sinTaylor aiEnv 0 sampleRequest (stateWith [] 0 ∅)))
  = Imported
  /\ exists enhanced cat author,
       List.filter isCreation
         (e_events (snd (body Number.sinTaylor aiEnv 0 sampleRequest (stateWith [] 0 ∅))))
       = [Event (CreateUser (Requested_By sampleRequest)) true;
          Event (CreatePost (boardID (config aiEnv) cat) cat author (title enhanced)
                            (description enhanced) (created_at sampleRequest)) true].
Proof.
  assert (H1 : e_outcome (snd (body Number.sinTaylor aiEnv 0 sampleRequest
                                    (stateWith [] 0 ∅))) = Imported)
    by (vm_compute; reflexivity).
  split; [ exact H1 | ].
  destruct (imported_row_posts_once_as_requester Number.sinTaylor aiEnv 0 sampleRequest
              (stateWith [] 0 ∅) H1)
    as (enhanced & cat & author & postID & _ & _ & _ & _ & E & _).
  exists enhanced, cat, author. exact E.
Defined.

(** * Further properties of the vote simulator *)

Section VoteFacts.
Variable Math_sin : float -> float.

(** X11: the vote loop stops at the first vote call that throws: the
    voters before it, in the order of the shuffled pool, have each got
    their one vote, the failing call is the last one, no later voter is
    called for, and the exception leaves [addVotes].  The exchanges of
    the shuffle are taken to fall inside the array. *)
Theorem addVotes_stops_at_first_failed_vote
        (a : answers) (pool : list FakeUser) (postID : string) (n j : nat) :
  shuffleInRange Math_sin (length pool) postID = true ->
  (forall m, (m < j)%nat -> a_votes a m = Ok tt) ->
  a_votes a j = Throw ->
  (j < n)%nat ->
  (j < length pool)%nat ->
  exists (order : list FakeUser) (v : FakeUser),
    elems (shuffleArray Math_sin (ofList pool) postID) = Some <$> order
    /\ order ≡ₚ pool
    /\ order !! j = Some v
    /\ addVotes Math_sin a (Some postID) (Some (Z.of_nat n)) pool
       = (Throw, (voteEvent postID <$> take j order)
                   ++ [Event (CreateVote postID (id v)) false]).
Proof.
  intros Hr Hok Hthrow Hn Hp.
  destruct (shuffleArray_permutation Math_sin pool postID Hr) as (order & E & P).
  assert (Hlen : length order = length pool) by (rewrite P; reflexivity).
  destruct (lookup_lt_is_Some_2 order j) as [v Hv]; [ lia | ].
  exists order, v. split; [ rewrite E; reflexivity | ]. split; [ exact P | ]. split; [ exact Hv | ].
  unfold addVotes. rewrite slice0_count, E. cbn [elems]. rewrite <- fmap_take.
  rewrite (castVotes_stops _ _ _ 0 j v).
  - rewrite take_take. rewrite Nat.min_l by lia. reflexivity.
  - exact Hok.
  - exact Hthrow.
  - rewrite lookup_take_lt by lia. exact Hv.
Qed.

(** X12: a like count that does not parse casts no vote, and a negative
    like count [-k] casts a vote for every voter of the shuffled pool
    but the last [k] (none when the pool has at most [k] voters), as
    [slice(0, count)] counts a negative end from the end of the array.
    The exchanges of the shuffle are taken to fall inside the array and
    the vote calls to resolve. *)
Theorem addVotes_on_odd_like_counts
        (a : answers) (pool : list FakeUser) (postID : string) :
  shuffleInRange Math_sin (length pool) postID = true ->
  (forall k, a_votes a k = Ok tt) ->
  exists order : list FakeUser,
    elems (shuffleArray Math_sin (ofList pool) postID) = Some <$> order
    /\ order ≡ₚ pool
    /\ addVotes Math_sin a (Some postID) None pool = (Ok tt, [])
    /\ forall k : nat,
         (0 < k)%nat ->
         addVotes Math_sin a (Some postID) (Some (- Z.of_nat k)) pool
         = (Ok tt, voteEvent postID <$> take (length pool - k) order).
Proof.
  intros Hr Hv.
  destruct (shuffleArray_permutation Math_sin pool postID Hr) as (order & E & P).
  assert (Hlen : length order = length pool) by (rewrite P; reflexivity).
  exists order. split; [ rewrite E; reflexivity | ]. split; [ exact P | ]. split.
  - unfold addVotes, slice0. simpl. reflexivity.
  - intros k Hk. unfold addVotes, slice0.
    destruct (Z.ltb_spec (- Z.of_nat k) 0) as [_ | ?]; [ | lia ].
    rewrite E. cbn [elems]. rewrite length_fmap, Hlen.
    replace (Z.to_nat (Z.max (Z.of_nat (length pool) + - Z.of_nat k) 0))
      with (length pool - k)%nat by lia.
    rewrite <- fmap_take. apply castVotes_all_resolve, Hv.
Qed.

End VoteFacts.

Lemma addVotes_stops_at_first_failed_vote_witness :
  shuffleInRange Number.sinTaylor (length threeVoters) "p1" = true
  /\ a_votes secondVoteFails 1 = Throw
  /\ exists (order : list FakeUser) (v : FakeUser),
       order ≡ₚ threeVoters
       /\ addVotes Number.sinTaylor secondVoteFails (Some "p1"%string)
                   (Some (Z.of_nat 3)) threeVoters
          = (Throw, (voteEvent "p1" <$> take 1 order)
                      ++ [Event (CreateVote "p1" (id v)) false]).
Proof.
  assert (H1 : shuffleInRange Number.sinTaylor (length threeVoters) "p1" = true)
    by (vm_compute; reflexivity).
  assert (H2 : forall m, (m < 1)%nat -> a_votes secondVoteFails m = Ok tt).
  { intros [|m] Hm; [ reflexivity | lia ]. }
  assert (H3 : a_votes secondVoteFails 1 = Throw) by reflexivity.
  split; [ exact H1 | ]. split; [ exact H3 | ].
  destruct (addVotes_stops_at_first_failed_vote Number.sinTaylor secondVoteFails
              threeVoters "p1" 3 1 H1 H2 H3 ltac:(lia) ltac:(simpl; lia))
    as (order & v & _ & P & _ & E).
  exists order, v. split; assumption.
Defined.

Lemma addVotes_on_odd_like_counts_witness :
  shuffleInRange Number.sinTaylor (length threeVoters) "p1" = true
  /\ (forall k, a_votes okAnswers k = Ok tt)
  /\ exists order : list FakeUser,
       order ≡ₚ threeVoters
       /\ addVotes Number.sinTaylor okAnswers (Some "p1"%string) (Some (- Z.of_nat 1)%Z)
                   threeVoters
          = (Ok tt, voteEvent "p1" <$> take (length threeVoters - 1) order).
Proof.
  assert (H1 : shuffleInRange Number.sinTaylor (length threeVoters) "p1" = true)
    by (vm_compute; reflexivity).
  assert (H2 : forall k, a_votes okAnswers k = Ok tt) by reflexivity.
  split; [ exact H1 | ]. split; [ exact H2 | ].
  destruct (addVotes_on_odd_like_counts Number.sinTaylor okAnswers threeVoters "p1" H1 H2)
    as (order & _ & P & _ & E).
  exists order. split; [ exact P | ]. apply E. lia.
Defined.

(** * Before the loop: the pool of fake users *)

Lemma growUsers_S_ok domain answersOf turns i users uid :
  u_id (answersOf i) = Ok uid ->
  growUsers domain answersOf (S turns) i users
  = let '(r, t) :=
      growUsers domain answersOf turns (S i)
        (users ++ [{| id := uid; email := fakeEmail domain i;
                      name := generateRandomAlias (fst (u_random (answersOf i)))
                                                  (snd (u_random (answersOf i))) |}]) in
    (r, userCreated domain i :: t).
Proof.
  intros H. cbn [growUsers].
  unfold createOrUpdateUser_record, bind, await, ret. rewrite H.
  destruct (growUsers _ _ _ _ _) as [[]?]; reflexivity.
Qed.

Lemma growUsers_S_throw domain answersOf turns i users :
  u_id (answersOf i) = Throw ->
  growUsers domain answersOf (S turns) i users
  = (Throw, [Event (CreateUser (fakeEmail domain i)) false]).
Proof.
  intros H. cbn [growUsers].
  unfold createOrUpdateUser_record, bind, await, ret. rewrite H. reflexivity.
Qed.

Lemma growUsers_resolved domain answersOf :
  forall turns k users,
    (forall m, (m < turns)%nat -> isOk (u_id (answersOf (k + m)%nat)) = true) ->
    exists created,
      growUsers domain answersOf turns k users
      = (Ok (users ++ created), userCreated domain <$> seq k turns)
      /\ email <$> created = fakeEmail domain <$> seq k turns.
Proof.
  induction turns as [|turns IH]; intros k users Hok.
  - exists []. rewrite app_nil_r. split; reflexivity.
  - pose proof (Hok 0%nat ltac:(lia)) as H0. rewrite Nat.add_0_r in H0.
    destruct (u_id (answersOf k)) as [uid|] eqn:Eu; [ | discriminate H0 ].
    rewrite (growUsers_S_ok _ _ _ _ _ _ Eu).
    destruct (IH (S k) (users ++ [{| id := uid; email := fakeEmail domain k;
                                     name := generateRandomAlias
                                               (fst (u_random (answersOf k)))
                                               (snd (u_random (answersOf k))) |}]))
      as (created & E & Hm).
    { intros m Hm. replace (S k + m)%nat with (k + S m)%nat by lia. apply Hok. lia. }
    eexists (_ :: created). rewrite E, <- app_assoc. split; [ reflexivity | ].
    cbn [fmap list_fmap seq]. cbn [email]. f_equal. exact Hm.
Qed.

Lemma growUsers_fails domain answersOf :
  forall turns k users j,
    (j < turns)%nat ->
    (forall m, (m < j)%nat -> isOk (u_id (answersOf (k + m)%nat)) = true) ->
    u_id (answersOf (k + j)%nat) = Throw ->
    growUsers domain answersOf turns k users
    = (Throw, (userCreated domain <$> seq k j)
                ++ [Event (CreateUser (fakeEmail domain (k + j))) false]).
Proof.
  induction turns as [|turns IH]; intros k users j Hj Hok Hthrow; [ lia | ].
  destruct j as [|j].
  - rewrite Nat.add_0_r in *. apply growUsers_S_throw, Hthrow.
  - pose proof (Hok 0%nat ltac:(lia)) as H0. rewrite Nat.add_0_r in H0.
    destruct (u_id (answersOf k)) as [uid|] eqn:Eu; [ | discriminate H0 ].
    rewrite (growUsers_S_ok _ _ _ _ _ _ Eu).
    rewrite (IH (S k) _ j); [ | lia | | ].
    + replace (S k + j)%nat with (k + S j)%nat by lia. reflexivity.
    + intros m Hm. replace (S k + m)%nat with (k + S m)%nat by lia. apply Hok. lia.
    + replace (S k + j)%nat with (k + S j)%nat by lia. exact Hthrow.
Qed.

Lemma usersToCreate_int (n : Z) (len : nat) :
  usersToCreate (CInt n) len = (Z.to_nat n - len)%nat.
Proof. unfold usersToCreate. cbn [Math_max2]. lia. Qed.

Lemma ensureFakeUsers_int
        (domain : string) (answersOf : nat -> userAnswer) (n : Z)
        (file : option (list FakeUser)) :
  (forall i, isOk (u_id (answersOf i)) = true) ->
  let existing := loadOrCreateFakeUsers file in
  let turns := (Z.to_nat n - length existing)%nat in
  let r := ensureFakeUsers domain answersOf (CInt n) file in
  exists created,
    pool r = (Ok (existing ++ created),
              userCreated domain <$> seq (length existing) turns)
    /\ email <$> created = fakeEmail domain <$> seq (length existing) turns
    /\ poolFile r = Some (existing ++ created)
    /\ length (existing ++ created) = Nat.max (Z.to_nat n) (length existing).
Proof.
  intros Hok existing turns r.
  destruct (growUsers_resolved domain answersOf turns (length existing) existing)
    as (created & E & Hm); [ intros m _; apply Hok | ].
  exists created.
  assert (Hp : pool r = (Ok (existing ++ created),
                         userCreated domain <$> seq (length existing) turns)).
  { unfold r, ensureFakeUsers. cbn [pool]. fold existing.
    rewrite usersToCreate_int. exact E. }
  split; [ exact Hp | ]. split; [ exact Hm | ]. split.
  - unfold r, ensureFakeUsers in *. cbn [pool poolFile] in *. rewrite Hp. reflexivity.
  - apply (f_equal length) in Hm. rewrite !length_fmap, length_seq in Hm.
    rewrite length_app, Hm. unfold turns. lia.
Qed.


(** X13: when every user creation resolves, [ensureFakeUsers n] keeps the
    users of the file as they are, first in the pool, creates one user for
    each missing place up to [n], with the emails fake(i+1)@domain in the
    order of the places, and writes the whole pool to the file: the pool
    has max(n, users in the file) users. *)
Theorem ensureFakeUsers_fills_pool
        (domain : string) (answersOf : nat -> userAnswer) (n : Z)
        (file : option (list FakeUser)) :
  (forall i, isOk (u_id (answersOf i)) = true) ->
  let existing := loadOrCreateFakeUsers file in
  let turns := (Z.to_nat n - length existing)%nat in
  let r := ensureFakeUsers domain answersOf (CInt n) file in
  exists created,
    pool r = (Ok (existing ++ created),
              userCreated domain <$> seq (length existing) turns)
    /\ email <$> created = fakeEmail domain <$> seq (length existing) turns
    /\ poolFile r = Some (existing ++ created)
    /\ length (existing ++ created) = Nat.max (Z.to_nat n) (length existing).
Proof. exact (ensureFakeUsers_int domain answersOf n file). Qed.

(** X14: when a user creation throws, [ensureFakeUsers] throws and the
    file of fake users stays as it was: the users created in this call
    before the failure exist on the service but are not written down, as
    the file is written once, after the loop. *)
Theorem ensureFakeUsers_failure_keeps_file
        (domain : string) (answersOf : nat -> userAnswer) (count : count)
        (file : option (list FakeUser)) (j : nat) :
  let existing := loadOrCreateFakeUsers file in
  (j < usersToCreate count (length existing))%nat ->
  (forall m, (m < j)%nat -> isOk (u_id (answersOf (length existing + m)%nat)) = true) ->
  u_id (answersOf (length existing + j)%nat) = Throw ->
  let r := ensureFakeUsers domain answersOf count file in
  pool r = (Throw, (userCreated domain <$> seq (length existing) j)
                     ++ [Event (CreateUser (fakeEmail domain (length existing + j)))
                               false])
  /\ poolFile r = file.
Proof.
  intros existing Hj Hok Hthrow r.
  assert (Hp : pool r = (Throw, (userCreated domain <$> seq (length existing) j)
                     ++ [Event (CreateUser (fakeEmail domain (length existing + j)))
                               false])).
  { unfold r, ensureFakeUsers. cbn [pool]. fold existing.
    apply growUsers_fails; assumption. }
  split; [ exact Hp | ].
  unfold r, ensureFakeUsers in *. cbn [pool poolFile] in *. rewrite Hp. reflexivity.
Qed.

Lemma Math_max2_NaN_r x : Math_max2 x CNaN = CNaN.
Proof. destruct x; reflexivity. Qed.

Lemma maxVotes_cons r requests :
  maxVotes (r :: requests)
  = Math_max2 (countOfParse (parseInt (Total_Likes r))) (maxVotes requests).
Proof. reflexivity. Qed.

Lemma maxVotes_NaN requests :
  maxVotes requests = CNaN
  <-> exists r, r ∈ requests /\ parseInt (Total_Likes r) = None.
Proof.
  induction requests as [|r requests IH].
  - split; [ discriminate | intros (r & Hr & _); inversion Hr ].
  - rewrite maxVotes_cons. split.
    + intros H. destruct (parseInt (Total_Likes r)) as [z|] eqn:Ez.
      * destruct (maxVotes requests) eqn:Em; try discriminate H.
        destruct (proj1 IH eq_refl) as (r' & Hr' & Hp).
        exists r'. split; [ apply list_elem_of_further, Hr' | exact Hp ].
      * exists r. split; [ apply list_elem_of_here | exact Ez ].
    + intros (r' & [-> | Hr']%elem_of_cons & Hp).
      * rewrite Hp. reflexivity.
      * rewrite (proj2 IH (ex_intro _ r' (conj Hr' Hp))). apply Math_max2_NaN_r.
Qed.

(** X15: one row whose Total Likes does not parse as a number makes the
    largest vote count NaN, and then no fake user is created, whatever
    the other rows ask for: the pool is the one of the file, which is
    written back as it was read. *)
Theorem unparsable_likes_create_no_user
        (domain : string) (answersOf : nat -> userAnswer)
        (requests : list FeatureRequest) (file : option (list FakeUser))
        (r : FeatureRequest) :
  r ∈ requests ->
  parseInt (Total_Likes r) = None ->
  maxVotes requests = CNaN
  /\ ensureFakeUsers domain answersOf (maxVotes requests) file
     = {| pool := (Ok (loadOrCreateFakeUsers file), []);
          poolFile := Some (loadOrCreateFakeUsers file) |}.
Proof.
  intros Hr Hp.
  assert (E : maxVotes requests = CNaN).
  { apply maxVotes_NaN. exists r. split; assumption. }
  split; [ exact E | ]. rewrite E. reflexivity.
Qed.

Lemma maxVotes_bound requests :
  Forall (fun r => parseInt (Total_Likes r) <> None) requests ->
  (requests = [] /\ maxVotes requests = CNegInfinity)
  \/ exists n, maxVotes requests = CInt n
               /\ forall r z, r ∈ requests -> parseInt (Total_Likes r) = Some z ->
                              (z <= n)%Z.
Proof.
  induction 1 as [|r requests Hr _ IH]; [ left; split; reflexivity | ].
  right. rewrite maxVotes_cons.
  destruct (parseInt (Total_Likes r)) as [z0|] eqn:Ez; [ | contradiction ].
  destruct IH as [[-> E] | (n & E & Hb)]; rewrite E; cbn [countOfParse Math_max2].
  - exists z0. split; [ reflexivity | ].
    intros r' z [-> | Hin]%elem_of_cons Hp; [ | inversion Hin ].
    rewrite Ez in Hp. injection Hp as <-. lia.
  - exists (Z.max z0 n). split; [ reflexivity | ].
    intros r' z [-> | Hin]%elem_of_cons Hp.
    + rewrite Ez in Hp. injection Hp as <-. lia.
    + specialize (Hb r' z Hin Hp). lia.
Qed.

Lemma ensureFakeUsers_covers domain answersOf requests file :
  (forall i, isOk (u_id (answersOf i)) = true) ->
  Forall (fun r => parseInt (Total_Likes r) <> None) requests ->
  exists created events,
    let users := loadOrCreateFakeUsers file ++ created in
    ensureFakeUsers domain answersOf (maxVotes requests) file
    = {| pool := (Ok users, events); poolFile := Some users |}
    /\ forall r z, r ∈ requests -> parseInt (Total_Likes r) = Some z ->
                   (z <= Z.of_nat (length users))%Z.
Proof.
  intros Hok Hp.
  destruct (maxVotes_bound requests Hp) as [[-> E] | (n & E & Hb)]; rewrite E.
  - exists [], []. cbn zeta. rewrite app_nil_r.
    split; [ | intros r z Hin; inversion Hin ].
    unfold ensureFakeUsers.
    replace (usersToCreate CNegInfinity (length (loadOrCreateFakeUsers file)))
      with 0%nat by (unfold usersToCreate; cbn [Math_max2]; lia).
    reflexivity.
  - destruct (ensureFakeUsers_int domain answersOf n file Hok)
      as (created & Hpool & _ & Hfile & Hlen).
    exists created, (userCreated domain
                       <$> seq (length (loadOrCreateFakeUsers file))
                               (Z.to_nat n - length (loadOrCreateFakeUsers file))).
    cbn zeta. split.
    + destruct (ensureFakeUsers domain answersOf (CInt n) file) as [pl fl].
      cbn [pool poolFile] in Hpool, Hfile. rewrite Hpool, Hfile. reflexivity.
    + intros r z Hin Hz. specialize (Hb r z Hin Hz). rewrite Hlen. lia.
Qed.

(** X16: when the Total Likes of every row parse and every user creation
    resolves, the pool the loop votes from has at least as many voters as
    the largest like count: no row asks for more voters than there are. *)
Theorem pool_covers_every_like_count
        (domain : string) (answersOf : nat -> userAnswer)
        (requests : list FeatureRequest) (file : option (list FakeUser)) :
  (forall i, isOk (u_id (answersOf i)) = true) ->
  Forall (fun r => parseInt (Total_Likes r) <> None) requests ->
  exists users,
    fst (pool (ensureFakeUsers domain answersOf (maxVotes requests) file)) = Ok users
    /\ forall r z, r ∈ requests -> parseInt (Total_Likes r) = Some z ->
                   (z <= Z.of_nat (length users))%Z.
Proof.
  intros Hok Hp.
  destruct (ensureFakeUsers_covers domain answersOf requests file Hok Hp)
    as (created & events & E & Hb).
  exists (loadOrCreateFakeUsers file ++ created).
  cbn zeta in E. rewrite E. split; [ reflexivity | exact Hb ].
Qed.

Lemma growUsers_length domain answersOf :
  forall turns k users us t,
    growUsers domain answersOf turns k users = (Ok us, t) ->
    length us = (length users + turns)%nat.
Proof.
  induction turns as [|turns IH]; intros k users us t.
  - intros [= <- _]. lia.
  - destruct (u_id (answersOf k)) as [uid|] eqn:Eu.
    + rewrite (growUsers_S_ok _ _ _ _ _ _ Eu).
      destruct (growUsers _ _ _ _ _) as [[us'|] t'] eqn:Eg; intros [= <- _].
      rewrite (IH _ _ _ _ Eg), length_app. simpl. lia.
    + rewrite (growUsers_S_throw _ _ _ _ _ Eu). discriminate.
Qed.

(** X17: after a call of [ensureFakeUsers] that returned, a second call
    for the same count, reading the file the first one wrote, creates no
    user and returns the same pool, whatever the service would answer. *)
Theorem ensureFakeUsers_again_creates_nothing
        (domain : string) (answersOf answersOf2 : nat -> userAnswer) (count : count)
        (file : option (list FakeUser)) (users : list FakeUser) :
  fst (pool (ensureFakeUsers domain answersOf count file)) = Ok users ->
  ensureFakeUsers domain answersOf2 count
                  (poolFile (ensureFakeUsers domain answersOf count file))
  = {| pool := (Ok users, []); poolFile := Some users |}.
Proof.
  intros H.
  assert (Hfile : poolFile (ensureFakeUsers domain answersOf count file) = Some users).
  { unfold ensureFakeUsers in *. cbn [pool poolFile] in *.
    destruct (growUsers _ _ _ _ _) as [[us|] t]; simpl in H; congruence. }
  assert (Hlen : usersToCreate count (length users) = 0%nat).
  { unfold ensureFakeUsers in H. cbn [pool] in H.
    destruct (growUsers _ _ _ _ _) as [[us|] t] eqn:Eg; simpl in H; [ | discriminate ].
    injection H as ->. apply growUsers_length in Eg.
    rewrite Eg. unfold usersToCreate.
    destruct count as [| |n]; cbn [Math_max2]; lia. }
  rewrite Hfile. unfold ensureFakeUsers.
  change (loadOrCreateFakeUsers (Some users)) with users.
  rewrite Hlen. reflexivity.
Qed.

Lemma ensureFakeUsers_fills_pool_witness :
  (forall i, isOk (u_id (usersResolve i)) = true)
  /\ exists created,
       poolFile (ensureFakeUsers "fake.example.org" usersResolve (CInt 3)
                                 (Some [voter "A"]))
       = Some (loadOrCreateFakeUsers (Some [voter "A"]) ++ created)
       /\ email <$> created
          = ["fake2@fake.example.org"; "fake3@fake.example.org"]%string.
Proof.
  assert (H : forall i, isOk (u_id (usersResolve i)) = true) by reflexivity.
  split; [ exact H | ].
  pose proof (ensureFakeUsers_fills_pool "fake.example.org" usersResolve 3
                (Some [voter "A"]) H) as W.
  cbv zeta in W. destruct W as (created & _ & Hm & Hf & _).
  exists created. split; [ exact Hf | exact Hm ].
Defined.

Lemma ensureFakeUsers_failure_keeps_file_witness :
  u_id (thirdUserFails (length (loadOrCreateFakeUsers None) + 2)) = Throw
  /\ poolFile (ensureFakeUsers "fake.example.org" thirdUserFails (CInt 5) None) = None.
Proof.
  assert (H1 : (2 < usersToCreate (CInt 5) (length (loadOrCreateFakeUsers None)))%nat)
    by (vm_compute; lia).
  assert (H2 : forall m, (m < 2)%nat ->
                 isOk (u_id (thirdUserFails (length (loadOrCreateFakeUsers None) + m)))
                 = true).
  { intros [|[|m]] Hm; [ reflexivity | reflexivity | lia ]. }
  assert (H3 : u_id (thirdUserFails (length (loadOrCreateFakeUsers None) + 2)) = Throw)
    by reflexivity.
  split; [ exact H3 | ].
  pose proof (ensureFakeUsers_failure_keeps_file "fake.example.org" thirdUserFails
                (CInt 5) None 2) as W.
  cbv zeta in W. exact (proj2 (W H1 H2 H3)).
Defined.

Lemma unparsable_likes_create_no_user_witness :
  parseInt (Total_Likes (row "request 1" "2024-03-01" "many")) = None
  /\ maxVotes rowsWithBadLikes = CNaN
  /\ snd (pool (ensureFakeUsers "fake.example.org" usersResolve
                                 (maxVotes rowsWithBadLikes) None)) = [].
Proof.
  assert (H1 : row "request 1" "2024-03-01" "many" ∈ rowsWithBadLikes).
  { apply list_elem_of_further, list_elem_of_here. }
  assert (H2 : parseInt (Total_Likes (row "request 1" "2024-03-01" "many")) = None)
    by reflexivity.
  split; [ exact H2 | ].
  destruct (unparsable_likes_create_no_user "fake.example.org" usersResolve
              rowsWithBadLikes None _ H1 H2) as [E1 E2].
  split; [ exact E1 | ]. rewrite E2. reflexivity.
Defined.

Lemma pool_covers_every_like_count_witness :
  Forall (fun r => parseInt (Total_Likes r) <> None) threeRows
  /\ exists users,
       fst (pool (ensureFakeUsers "fake.example.org" usersResolve (maxVotes threeRows)
                                  None)) = Ok users
       /\ (1 <= Z.of_nat (length users))%Z.
Proof.
  assert (H1 : forall i, isOk (u_id (usersResolve i)) = true) by reflexivity.
  assert (H2 : Forall (fun r => parseInt (Total_Likes r) <> None) threeRows).
  { repeat constructor; discriminate. }
  split; [ exact H2 | ].
  destruct (pool_covers_every_like_count "fake.example.org" usersResolve threeRows None
              H1 H2) as (users & E & Hb).
  exists users. split; [ exact E | ].
  apply (Hb (row "request 0" "2024-03-01" "1")); [ apply list_elem_of_here | reflexivity ].
Defined.

Lemma ensureFakeUsers_again_creates_nothing_witness :
  exists users,
    fst (pool (ensureFakeUsers "fake.example.org" usersResolve (CInt 2) None)) = Ok users
    /\ pool (ensureFakeUsers "fake.example.org" thirdUserFails (CInt 2)
               (poolFile (ensureFakeUsers "fake.example.org" usersResolve (CInt 2) None)))
       = (Ok users, []).
Proof.
  eexists. split; [ vm_compute; reflexivity | ].
  rewrite (ensureFakeUsers_again_creates_nothing "fake.example.org" usersResolve
             thirdUserFails (CInt 2) None _ eq_refl).
  reflexivity.
Defined.

(** * Before the loop: the titles on the boards *)

Lemma fetchPages_S server fuel skip acc :
  fetchPages server (S fuel) skip acc
  = match server skip with
    | Throw => Some (Throw, [skip])
    | Ok data =>
        if hasMore data
        then match fetchPages server fuel (skip + limit)
                              (acc ∪ list_to_set (posts data)) with
             | Some (r, requests) => Some (r, skip :: requests)
             | None => None
             end
        else Some (Ok (acc ∪ list_to_set (posts data)), [skip])
    end.
Proof. reflexivity. Qed.

Lemma fetchPages_trace server :
  forall fuel (k : nat) acc r reqs,
    fetchPages server fuel (limit * Z.of_nat k) acc = Some (r, reqs) ->
    reqs = (fun j => limit * Z.of_nat j)%Z <$> seq k (length reqs)
    /\ (1 <= length reqs)%nat
    /\ match r with
       | Ok titles =>
           forall t, t ∈ titles
                     <-> t ∈ acc
                         \/ exists skip data,
                              skip ∈ reqs /\ server skip = Ok data /\ t ∈ posts data
       | Throw => exists skip, last reqs = Some skip /\ server skip = Throw
       end.
Proof.
  induction fuel as [|fuel IH]; intros k acc r reqs; [ discriminate | ].
  rewrite fetchPages_S.
  destruct (server (limit * Z.of_nat k)%Z) as [data|] eqn:Es.
  - destruct (hasMore data).
    + replace (limit * Z.of_nat k + limit)%Z with (limit * Z.of_nat (S k))%Z by lia.
      destruct (fetchPages server fuel _ _) as [[r' reqs']|] eqn:Ef; [ | discriminate ].
      intros [= <- <-]. destruct (IH _ _ _ _ Ef) as (H1 & H2 & H3).
      split; [ | split ].
      * cbn [length seq fmap list_fmap]. f_equal. exact H1.
      * simpl. lia.
      * destruct r' as [titles|].
        -- intros t. rewrite (H3 t), elem_of_union, elem_of_list_to_set. split.
           ++ intros [[Ha | Hd] | (skip & d & Hin & Hsk & Ht)].
              ** left. exact Ha.
              ** right. exists (limit * Z.of_nat k)%Z, data.
                 split; [ apply list_elem_of_here | split; assumption ].
              ** right. exists skip, d.
                 split; [ apply list_elem_of_further, Hin | split; assumption ].
           ++ intros [Ha | (skip & d & [-> | Hin]%elem_of_cons & Hsk & Ht)].
              ** left. left. exact Ha.
              ** left. right. rewrite Es in Hsk. injection Hsk as <-. exact Ht.
              ** right. exists skip, d. repeat split; assumption.
        -- destruct H3 as (skip & Hl & Hsk). exists skip. split; [ | exact Hsk ].
           destruct reqs' as [|q reqs']; [ discriminate Hl | exact Hl ].
    + intros [= <- <-]. split; [ reflexivity | ]. split; [ simpl; lia | ].
      intros t. rewrite elem_of_union, elem_of_list_to_set. split.
      * intros [Ha | Hd]; [ left; exact Ha | ].
        right. exists (limit * Z.of_nat k)%Z, data.
        split; [ apply list_elem_of_here | split; assumption ].
      * intros [Ha | (skip & d & Hin & Hsk & Ht)]; [ left; exact Ha | ].
        apply list_elem_of_singleton in Hin as ->.
        right. rewrite Es in Hsk. injection Hsk as <-. exact Ht.
  - intros [= <- <-]. split; [ reflexivity | ]. split; [ simpl; lia | ].
    exists (limit * Z.of_nat k)%Z. split; [ reflexivity | exact Es ].
Qed.

(** X18: whenever [fetchExistingPosts] ends, it made at least one
    request, its requests asked for skip 0, 100, 200, ... in this order,
    and what it returns is exactly the set of the titles in the answers
    to these requests; when it throws, the request that threw was its
    last. *)
Theorem fetch_collects_the_pages_it_asked_for
        (server : Z -> result postsPage) (fuel : nat)
        (r : result (gset string)) (reqs : list Z) :
  fetchExistingPosts server fuel = Some (r, reqs) ->
  reqs = skips (length reqs)
  /\ (1 <= length reqs)%nat
  /\ match r with
     | Ok titles =>
         forall t, t ∈ titles
                   <-> exists skip data,
                         skip ∈ reqs /\ server skip = Ok data /\ t ∈ posts data
     | Throw => exists skip, last reqs = Some skip /\ server skip = Throw
     end.
Proof.
  unfold fetchExistingPosts. intros H.
  destruct (fetchPages_trace server fuel 0 ∅ r reqs H) as (H1 & H2 & H3).
  split; [ exact H1 | ]. split; [ exact H2 | ].
  destruct r as [titles|]; [ | exact H3 ].
  intros t. rewrite (H3 t). split; [ intros [Ha | Hx] | intros Hx ].
  - apply not_elem_of_empty in Ha. contradiction.
  - exact Hx.
  - right. exact Hx.
Qed.

Lemma fetchPages_paged titles :
  forall fuel (k : nat) acc,
    (pagesOf (length titles - 100 * k) <= fuel)%nat ->
    fetchPages (pagedBoard titles) fuel (limit * Z.of_nat k) acc
    = Some (Ok (acc ∪ list_to_set (drop (100 * k) titles)),
            (fun j => limit * Z.of_nat j)%Z
              <$> seq k (pagesOf (length titles - 100 * k))).
Proof.
  unfold pagesOf, limit.
  induction fuel as [|fuel IH]; intros k acc Hf; [ lia | ].
  rewrite fetchPages_S. unfold pagedBoard at 1. cbn [posts hasMore]. unfold limit.
  replace (Z.to_nat (100 * Z.of_nat k)) with (100 * k)%nat by lia.
  change (Z.to_nat 100) with 100%nat.
  destruct (Z.ltb_spec (100 * Z.of_nat k + 100) (Z.of_nat (length titles)))
    as [Hmore | Hlast].
  - assert (Hd : ((length titles - 100 * k - 1) / 100
                  = (length titles - 100 * S k - 1) / 100 + 1)%nat).
    { replace (length titles - 100 * k - 1)%nat
        with ((length titles - 100 * S k - 1) + 1 * 100)%nat by lia.
      rewrite Nat.div_add by lia. reflexivity. }
    replace (100 * Z.of_nat k + 100)%Z with (100 * Z.of_nat (S k))%Z by lia.
    rewrite (IH (S k)) by lia.
    rewrite Hd. rewrite (Nat.add_comm _ 1) at 2. cbn [seq fmap list_fmap Nat.add].
    rewrite <- (assoc_L (∪)), <- list_to_set_app_L.
    replace (100 * S k)%nat with (100 * k + 100)%nat at 1 by lia.
    rewrite <- drop_drop, take_drop. reflexivity.
  - rewrite take_ge by (rewrite length_drop; lia).
    rewrite Nat.div_small by lia. reflexivity.
Qed.

Lemma fetch_whole_board (titles : list string) (fuel : nat) :
  (pagesOf (length titles) <= fuel)%nat ->
  fetchExistingPosts (pagedBoard titles) fuel
  = Some (Ok (list_to_set titles), skips (pagesOf (length titles))).
Proof.
  intros Hf. unfold fetchExistingPosts, skips.
  pose proof (fetchPages_paged titles fuel 0 ∅) as H.
  change (limit * Z.of_nat 0)%Z with 0%Z in H.
  rewrite Nat.mul_0_r, Nat.sub_0_r in H. rewrite (H Hf).
  rewrite (left_id_L ∅ (∪)). reflexivity.
Qed.


(** X19: against a board that lists its titles page by page,
    [fetchExistingPosts] returns, after one request per hundred titles
    (one for an empty board), and what it returns is the set of all the
    titles of the board: no page is left out at either end. *)
Theorem fetch_lists_the_whole_board (titles : list string) (fuel : nat) :
  (pagesOf (length titles) <= fuel)%nat ->
  fetchExistingPosts (pagedBoard titles) fuel
  = Some (Ok (list_to_set titles), skips (pagesOf (length titles))).
Proof. exact (fetch_whole_board titles fuel). Qed.

(** X20: the paging has no bound of its own: against a service that
    answers every request and says each time that more follow,
    [fetchExistingPosts] never returns, however long it runs. *)
Theorem fetch_never_returns_while_more_follow
        (server : Z -> result postsPage) :
  (forall skip, exists data, server skip = Ok data /\ hasMore data = true) ->
  forall fuel, fetchExistingPosts server fuel = None.
Proof.
  intros Hs fuel. unfold fetchExistingPosts.
  generalize 0%Z as skip. generalize (∅ : gset string) as acc.
  induction fuel as [|fuel IH]; intros acc skip; [ reflexivity | ].
  rewrite fetchPages_S. destruct (Hs skip) as (data & -> & ->).
  rewrite IH. reflexivity.
Qed.

Lemma fetch_collects_the_pages_it_asked_for_witness :
  fetchExistingPosts (pagedBoard ["a"; "b"]%string) 3
  = Some (Ok (list_to_set ["a"; "b"]%string), skips (pagesOf 2))
  /\ skips (pagesOf 2) = skips (length (skips (pagesOf 2))).
Proof.
  assert (H : fetchExistingPosts (pagedBoard ["a"; "b"]%string) 3
              = Some (Ok (list_to_set ["a"; "b"]%string), skips (pagesOf 2))).
  { apply (fetch_whole_board ["a"; "b"]%string 3). vm_compute. lia. }
  split; [ exact H | ].
  exact (proj1 (fetch_collects_the_pages_it_asked_for _ _ _ _ H)).
Defined.

Lemma fetch_lists_the_whole_board_witness :
  (pagesOf (length ["a"; "b"]%string) <= 1)%nat
  /\ fetchExistingPosts (pagedBoard ["a"; "b"]%string) 1
     = Some (Ok (list_to_set ["a"; "b"]%string), skips (pagesOf 2)).
Proof.
  assert (H : (pagesOf (length ["a"; "b"]%string) <= 1)%nat) by (vm_compute; lia).
  split; [ exact H | ].
  exact (fetch_lists_the_whole_board ["a"; "b"]%string 1 H).
Defined.

Lemma fetch_never_returns_while_more_follow_witness :
  (forall skip, exists data, endlessBoard skip = Ok data /\ hasMore data = true)
  /\ fetchExistingPosts endlessBoard 1000 = None.
Proof.
  assert (H : forall skip, exists data, endlessBoard skip = Ok data /\ hasMore data = true).
  { intros skip. eexists. split; reflexivity. }
  split; [ exact H | ].
  exact (fetch_never_returns_while_more_follow endlessBoard H 1000).
Defined.

(** * Strings: emails, numbers, identifiers, titles *)

Lemma append_length (s t : string) :
  String.length (String.append s t) = (String.length s + String.length t)%nat.
Proof. induction s as [|c s IH]; [ reflexivity | simpl; rewrite IH; reflexivity ]. Qed.

Lemma append_inj_l (s1 s2 t : string) :
  String.append s1 t = String.append s2 t -> s1 = s2.
Proof.
  revert s2. induction s1 as [|c s1 IH]; intros [|c2 s2] E.
  - reflexivity.
  - apply (f_equal String.length) in E. rewrite !append_length in E.
    simpl in E. rewrite ?append_length in E. lia.
  - apply (f_equal String.length) in E. rewrite !append_length in E.
    simpl in E. rewrite ?append_length in E. lia.
  - simpl in E. injection E as -> E. f_equal. apply IH, E.
Qed.

Lemma append_inj_r (p s1 s2 : string) :
  String.append p s1 = String.append p s2 -> s1 = s2.
Proof.
  induction p as [|c p IH]; intros E; [ exact E | ].
  simpl in E. injection E as E. apply IH, E.
Qed.

Lemma string_of_to_uint n :
  decimal n = NilEmpty.string_of_uint (Nat.to_uint n) /\ Nat.to_uint n <> Decimal.Nil.
Proof.
  assert (H : Nat.to_uint n <> Decimal.Nil).
  { intros E. pose proof (Unsigned.of_to n) as H. rewrite E in H.
    cbn in H. subst n. discriminate E. }
  split; [ | exact H ]. unfold decimal.
  destruct (Nat.to_uint n); [ contradiction | reflexivity .. ].
Qed.

Lemma decimal_inj n m : decimal n = decimal m -> n = m.
Proof.
  unfold decimal. intros E.
  apply (f_equal NilZero.uint_of_string) in E.
  rewrite !NilZero.usu in E by apply string_of_to_uint.
  injection E as E. apply Unsigned.to_uint_inj, E.
Qed.

Lemma fakeEmail_inj domain i j : fakeEmail domain i = fakeEmail domain j -> i = j.
Proof.
  unfold fakeEmail. intros E.
  apply append_inj_r, append_inj_l, decimal_inj in E. lia.
Qed.

(** X22: the emails of the fake users are pairwise different: two places
    of the pool never get the same email, so no creation of a fake user
    lands on the account of another one (the email is the user id the
    service is given). *)
Theorem fake_emails_are_distinct (domain : string) :
  (forall i j, fakeEmail domain i = fakeEmail domain j <-> i = j)
  /\ forall k n, NoDup (fakeEmail domain <$> seq k n).
Proof.
  split.
  - intros i j. split; [ apply fakeEmail_inj | intros ->; reflexivity ].
  - intros k n. apply NoDup_fmap_2; [ | apply NoDup_seq ].
    intros i j. apply fakeEmail_inj.
Qed.

Lemma digits_stop a rest :
  endsNumber rest = true -> digits 10 (Some a) rest = Some a.
Proof.
  destruct rest as [|c r]; [ reflexivity | ].
  unfold endsNumber. cbn [digits].
  destruct (digitValue 10 c); [ discriminate | reflexivity ].
Qed.

Lemma digits_cons_app acc c s rest :
  digits 10 acc (String.append (String c s) rest)
  = match digitValue 10 c with
    | Some v => digits 10 (Some (10 * default 0 acc + v)%Z) (String.append s rest)
    | None => acc
    end.
Proof. reflexivity. Qed.

Lemma digits_uint rest :
  endsNumber rest = true ->
  forall d a,
    digits 10 (Some (Z.of_nat a)) (String.append (NilEmpty.string_of_uint d) rest)
    = Some (Z.of_nat (Nat.of_uint_acc d a)).
Proof.
  intros Hr.
  induction d as [|d IH|d IH|d IH|d IH|d IH|d IH|d IH|d IH|d IH|d IH]; intros a;
    [ apply digits_stop, Hr | .. ];
    cbn [Nat.of_uint_acc]; rewrite <- IH.
  all: simpl NilEmpty.string_of_uint.
  all: rewrite digits_cons_app.
  all: match goal with
       | |- context [digitValue 10 ?c] =>
           let v := eval vm_compute in (digitValue 10 c) in
           change (digitValue 10 c) with v
       end.
  all: cbv beta iota; f_equal; f_equal; rewrite Nat.tail_mul_spec;
    change (default 0%Z (Some (Z.of_nat a))) with (Z.of_nat a); lia.
Qed.

Lemma parseInt_digits d rest (neg : bool) :
  d <> Decimal.Nil ->
  endsNumber rest = true ->
  parseInt (String.append (if neg then "-" else "")
                          (String.append (NilEmpty.string_of_uint d) rest))
  = (fun z : Z => nearestNumber (if neg then (- z)%Z else z))
      <$> digits 10 (Some 0%Z) (String.append (NilEmpty.string_of_uint d) rest).
Proof.
  intros Hd Hr.
  destruct d as [|d|d|d|d|d|d|d|d|d|d];
    [ contradiction | | destruct neg; reflexivity .. ].
  destruct d as [|d|d|d|d|d|d|d|d|d|d]; [ | destruct neg; reflexivity .. ].
  destruct rest as [|c r]; [ destruct neg; reflexivity | ].
  unfold endsNumber in Hr.
  destruct c as [[] [] [] [] [] [] [] []]; try discriminate Hr;
    destruct neg; reflexivity.
Qed.

Lemma nearestNumber_exact (z : Z) :
  (Z.abs z <= 2 ^ 53)%Z -> nearestNumber z = z.
Proof.
  intros H. unfold nearestNumber.
  destruct (Z.ltb_spec (Z.abs z) (2 ^ 53)) as [_ | Hge]; [ reflexivity | ].
  assert (E : z = (2 ^ 53)%Z \/ z = (- 2 ^ 53)%Z) by lia.
  destruct E as [-> | ->]; vm_compute; reflexivity.
Qed.

(** X23: [parseInt] reads a count of at most 20 digits written in
    decimal as the number nearest to that count, which is the count
    itself up to 2^53, and stops at the first character that is no
    digit: what follows the digits is ignored; with a minus sign before
    the digits it gives the negative number.  (Beyond 20 digits the
    language lets a host drop digits.) *)
Theorem parseInt_reads_leading_decimal (n : nat) (rest : string) :
  endsNumber rest = true ->
  (Z.of_nat n < 10 ^ 20)%Z ->
  parseInt (String.append (decimal n) rest) = Some (nearestNumber (Z.of_nat n))
  /\ parseInt (String.append "-" (String.append (decimal n) rest))
     = Some (nearestNumber (- Z.of_nat n))
  /\ ((Z.of_nat n <= 2 ^ 53)%Z ->
      parseInt (String.append (decimal n) rest) = Some (Z.of_nat n)
      /\ parseInt (String.append "-" (String.append (decimal n) rest))
         = Some (- Z.of_nat n)%Z).
Proof.
  intros Hr _. destruct (string_of_to_uint n) as [-> Hd].
  assert (E : digits 10 (Some 0%Z)
                (String.append (NilEmpty.string_of_uint (Nat.to_uint n)) rest)
              = Some (Z.of_nat n)).
  { change 0%Z with (Z.of_nat 0).
    rewrite (digits_uint rest Hr (Nat.to_uint n) 0).
    change (Nat.of_uint_acc (Nat.to_uint n) 0) with (Nat.of_uint (Nat.to_uint n)).
    rewrite Unsigned.of_to. reflexivity. }
  assert (H1 : parseInt (String.append (NilEmpty.string_of_uint (Nat.to_uint n)) rest)
               = Some (nearestNumber (Z.of_nat n))).
  { pose proof (parseInt_digits _ _ false Hd Hr) as H. rewrite E in H. exact H. }
  assert (H2 : parseInt (String.append "-"
                 (String.append (NilEmpty.string_of_uint (Nat.to_uint n)) rest))
               = Some (nearestNumber (- Z.of_nat n))).
  { pose proof (parseInt_digits _ _ true Hd Hr) as H. rewrite E in H. exact H. }
  split; [ exact H1 | ]. split; [ exact H2 | ].
  intros Hn.
  rewrite (nearestNumber_exact (Z.of_nat n)) in H1 by lia.
  rewrite (nearestNumber_exact (- Z.of_nat n)) in H2 by lia.
  split; [ exact H1 | exact H2 ].
Qed.

Lemma hexDigit_lower z : (0 <= z < 16)%Z -> isLowerHex (MD5.hexDigit z) = true.
Proof.
  intros H.
  assert (E : (z = 0 \/ z = 1 \/ z = 2 \/ z = 3 \/ z = 4 \/ z = 5 \/ z = 6 \/ z = 7
              \/ z = 8 \/ z = 9 \/ z = 10 \/ z = 11 \/ z = 12 \/ z = 13 \/ z = 14
              \/ z = 15)%Z) by lia.
  repeat destruct E as [-> | E]; try subst z; reflexivity.
Qed.

Lemma hex_format bs :
  Forall (fun b => (0 <= b < 256)%Z) bs ->
  String.length (MD5.hex bs) = (2 * length bs)%nat
  /\ allChars isLowerHex (MD5.hex bs) = true.
Proof.
  induction 1 as [|b bs Hb _ [IH1 IH2]]; [ split; reflexivity | ].
  cbn [MD5.hex String.length allChars length]. rewrite IH1, IH2.
  rewrite !hexDigit_lower.
  - split; [ lia | reflexivity ].
  - pose proof (Z.mod_pos_bound b 16). lia.
  - split; [ apply Z.div_pos; lia | apply Z.div_lt_upper_bound; lia ].
Qed.

Lemma le32_bytes x : Forall (fun b => (0 <= b < 256)%Z) (MD5.le32 x).
Proof.
  assert (H : forall y, (0 <= Z.land y 255 < 256)%Z).
  { intros y. change 255%Z with (Z.ones 8). rewrite Z.land_ones by lia.
    apply Z.mod_pos_bound. lia. }
  unfold MD5.le32. repeat constructor; apply H.
Qed.

Lemma digest_format bs :
  length (MD5.digest bs) = 16%nat
  /\ Forall (fun b => (0 <= b < 256)%Z) (MD5.digest bs).
Proof.
  unfold MD5.digest. cbv zeta. split.
  - rewrite !length_app. reflexivity.
  - rewrite !Forall_app. repeat split; apply le32_bytes.
Qed.

(** X24: an ItemId is always 32 characters long, each one of 0-9 and a-f,
    whatever the title and the date of the row. *)
Theorem itemId_is_32_hex_digits (request : FeatureRequest) :
  String.length (generateItemId request) = 32%nat
  /\ allChars isLowerHex (generateItemId request) = true.
Proof.
  unfold generateItemId, MD5.md5Hex.
  destruct (digest_format (JS.utf8 (String.append (title request) (created_at request))))
    as [Hl Hb].
  destruct (hex_format _ Hb) as [H1 H2]. rewrite H1, Hl. split; [ reflexivity | exact H2 ].
Qed.

(** X25: the title [enhanceRequest] returns is the title of the row, or
    else a text of the answer that follows the label "Enhanced Title: "
    there, is not empty, holds no line break and runs to the end of its
    line: an enhanced title is never empty and never more than one
    line. *)
Theorem enhanced_title_is_one_line_of_the_answer
        (content : option string) (request : FeatureRequest) :
  let t := title (enhancedRecord content request) in
  t = title request
  \/ (t <> EmptyString
      /\ oneLine t = true
      /\ exists s pre post,
           content = Some s
           /\ s = String.append pre
                    (String.append "Enhanced Title: " (String.append t post))
           /\ lineEnds post = true).
Proof.
  cbn zeta. unfold enhancedRecord. cbn [title].
  destruct content as [s|]; [ | left; reflexivity ].
  cbn [mbind option_bind].
  destruct (JS.matchLine "Enhanced Title: " s) as [t|] eqn:Em; [ | left; reflexivity ].
  destruct (matchLine_Some _ _ _ Em) as (H1 & H2 & pre & post & E & H3).
  destruct t as [|c t]; [ contradiction | ].
  right. cbn [orElse]. split; [ exact H1 | ]. split; [ exact H2 | ].
  exists s, pre, post. split; [ reflexivity | ]. split; [ exact E | exact H3 ].
Qed.

Lemma parseInt_reads_leading_decimal_witness :
  endsNumber " likes" = true
  /\ (Z.of_nat 12 < 10 ^ 20)%Z
  /\ parseInt (String.append (decimal 12) " likes") = Some (Z.of_nat 12).
Proof.
  assert (H : endsNumber " likes" = true) by reflexivity.
  assert (Hn : (Z.of_nat 12 < 10 ^ 20)%Z) by (vm_compute; reflexivity).
  split; [ exact H | ]. split; [ exact Hn | ].
  destruct (parseInt_reads_leading_decimal 12 " likes" H Hn) as (_ & _ & W).
  apply W. vm_compute. discriminate.
Defined.

Section Yes.

Local Ltac by_cases c :=
  destruct c as [[] [] [] [] [] [] [] []]; vm_compute; intros H;
  first [ discriminate H | auto ].

Lemma lowerChar_y c : JS.lowerChar c = "y"%char -> c = "y"%char \/ c = "Y"%char.
Proof. by_cases c. Qed.

Lemma lowerChar_e c : JS.lowerChar c = "e"%char -> c = "e"%char \/ c = "E"%char.
Proof. by_cases c. Qed.

Lemma lowerChar_s c : JS.lowerChar c = "s"%char -> c = "s"%char \/ c = "S"%char.
Proof. by_cases c. Qed.

Lemma toLowerCase_yes s :
  JS.toLowerCase s = "yes"%string <-> matchesYes s.
Proof.
  split.
  - destruct s as [|y [|e [|z [|x r]]]]; simpl; try discriminate.
    intros H; injection H as Hy He Hz.
    exists y, e, z.
    repeat split; auto using lowerChar_y, lowerChar_e, lowerChar_s.
  - intros (y & e & z & -> & Hy & He & Hz).
    destruct Hy as [-> | ->], He as [-> | ->], Hz as [-> | ->]; reflexivity.
Qed.

End Yes.

(** X28: the validity filter accepts a row exactly when the answer, once
    the white space around it is trimmed, is the word yes in any letter
    case; a missing answer and every other text reject it, and
    [isValidRequest] makes its one call and throws only if the call
    does. *)
Theorem valid_iff_trimmed_yes (content : option string) :
  (validOfAnswer content = true
   <-> exists s, content = Some s /\ matchesYes (JS.trim s))
  /\ forall a t d,
       isValidRequest a t d
       = match a_valid a with
         | Ok c => (Ok (validOfAnswer c), [Event (AskValid t d) true])
         | Throw => (Throw, [Event (AskValid t d) false])
         end.
Proof.
  split.
  - unfold validOfAnswer. destruct content as [s|]; simpl.
    + rewrite String.eqb_eq, toLowerCase_yes. split.
      * intros H. exists s. split; [ reflexivity | exact H ].
      * intros (s' & [= <-] & H). exact H.
    + split; [ discriminate | intros (s' & [=] & _) ].
  - intros a t d. unfold isValidRequest, await, bind, ret.
    destruct (a_valid a); reflexivity.
Qed.

(** * The whole of [main] *)

Section ProgramFacts.
Variable Math_sin : float -> float.

(** X21: when the file of rows is read, the Total Likes of every row
    parse, every creation of a fake user resolves and the two boards list
    their titles page by page, [main] reaches its loop, and the loop runs
    on all the rows, with a pool of voters that starts with the users of
    the file and covers the largest like count, with all the titles of
    the two boards as duplicate sets, from the state the state file
    holds; the pool and the state the loop ends in are what the two
    files hold afterwards. *)
Theorem program_hands_the_loop_its_inputs
        (cfg : Config) (rowAnswers : nat -> answers) (p : Prelude) (fuel : nat)
        (requests : list FeatureRequest) (featureTitles bugTitles : list string) :
  csv p = Ok requests ->
  Forall (fun r => parseInt (Total_Likes r) <> None) requests ->
  (forall i, isOk (u_id (userAnswers p i)) = true) ->
  featureServer p = pagedBoard featureTitles ->
  bugServer p = pagedBoard bugTitles ->
  (pagesOf (length featureTitles) <= fuel)%nat ->
  (pagesOf (length bugTitles) <= fuel)%nat ->
  exists created : list FakeUser,
    let users := loadOrCreateFakeUsers (usersFile p) ++ created in
    let run := main Math_sin
                    {| config := cfg; fakeUsers := users; script := rowAnswers |}
                    requests (list_to_set featureTitles) (list_to_set bugTitles)
                    (stateFile p) in
    ended (program Math_sin cfg rowAnswers p fuel) = Finished run
    /\ usersFileAfter (program Math_sin cfg rowAnswers p fuel) = Some users
    /\ stateFileAfter (program Math_sin cfg rowAnswers p fuel) = disk (final run)
    /\ forall r z, r ∈ requests -> parseInt (Total_Likes r) = Some z ->
                   (z <= Z.of_nat (length users))%Z.
Proof.
  intros Hcsv Hp Hok Hf Hb Hff Hfb.
  destruct (ensureFakeUsers_covers (domain p) (userAnswers p) requests (usersFile p)
              Hok Hp) as (created & events & E & Hcover).
  exists created. cbn zeta in *.
  unfold program. rewrite Hcsv. cbn zeta. rewrite E. cbn [pool poolFile fst snd].
  rewrite Hf, Hb.
  rewrite (fetch_whole_board featureTitles fuel Hff).
  rewrite (fetch_whole_board bugTitles fuel Hfb).
  cbn [ended usersFileAfter stateFileAfter].
  repeat split; try reflexivity. exact Hcover.
Qed.

End ProgramFacts.

Lemma program_hands_the_loop_its_inputs_witness :
  csv firstRun = Ok threeRows
  /\ exists created : list FakeUser,
       usersFileAfter (program Number.sinTaylor plainConfig (fun _ => okAnswers) firstRun 1)
       = Some (loadOrCreateFakeUsers (usersFile firstRun) ++ created).
Proof.
  assert (H1 : csv firstRun = Ok threeRows) by reflexivity.
  assert (H2 : Forall (fun r => parseInt (Total_Likes r) <> None) threeRows).
  { repeat constructor; discriminate. }
  assert (H3 : forall i, isOk (u_id (userAnswers firstRun i)) = true) by reflexivity.
  assert (H4 : (pagesOf (length ["request 2"%string]) <= 1)%nat) by (vm_compute; lia).
  assert (H5 : (pagesOf (length (@nil string)) <= 1)%nat) by (vm_compute; lia).
  split; [ exact H1 | ].
  destruct (program_hands_the_loop_its_inputs Number.sinTaylor plainConfig
              (fun _ => okAnswers) firstRun 1 threeRows ["request 2"%string] []
              H1 H2 H3 eq_refl eq_refl H4 H5) as (created & W).
  cbv zeta in W. exists created. exact (proj1 (proj2 W)).
Defined.
